(** * blades: sequential chains of runners and the Zeus provider adapter

    A shallow embedding of [flow.Chain] (blocking [Run], in its silent and
    verbose variants, and streaming [RunStream]) and of
    [zeus.ChatProvider.convertToZeusRequest], with the properties the
    specification states about them; and of the code around them: the rest
    of the Zeus provider, the Gemini provider, the executors and the .env
    loader of the examples.

    Layout: the data model of package [blades], the execution monad, the
    chain, the adapter and the test scenarios come first; the lemmas
    follow. *)

From Stdlib Require Import List String Ascii Bool Arith ZArith Lia DecimalString.
Import ListNotations.
Local Open Scope string_scope.
Local Open Scope list_scope.

(** ** Package blades: messages, prompts, generations *)

Module blades.

(** [blades.StatusIncomplete] and [blades.StatusCompleted], the two message
    states the provider adapters write. *)
Inductive StatusT : Type :=
| StatusIncomplete
| StatusCompleted.

(** Modelled from the spec: [blades.Part], declared outside the sources. "A
    content part is a tagged union {text; file-reference; opaque-data}";
    the fields are the ones the adapters read ([TextPart.Text],
    [FilePart.URI], [DataPart.Bytes]). *)
Inductive Part : Type :=
| TextPart (Text : string)
| FilePart (URI : string)
| DataPart (Bytes : list Byte.byte).

(** Modelled from the spec: [blades.Message], declared outside the sources:
    a role and content parts, with the [Status] the adapters set. [Role] is
    Go's [type Role string]: the adapters convert it and compare it with
    string literals, so a role outside the closed set can occur. The
    elements of a slice of message pointers are taken non-nil. *)
Record Message : Type := {
  Role : string;
  Status : StatusT;
  Parts : list Part
}.

Definition RoleUser : string := "user".
Definition RoleAssistant : string := "assistant".
Definition RoleSystem : string := "system".

(** Modelled from the spec: [blades.Prompt], whose declaration is not among
    the sources. The ConversationState is "an ordered sequence of Messages",
    "immutable once constructed". *)
Record Prompt : Type := {
  PromptMessages : list Message
}.

(** Modelled from the spec: [blades.NewPrompt(messages...)], "a new state is
    built from a prior state's resulting messages". *)
Definition NewPrompt (messages : list Message) : Prompt :=
  {| PromptMessages := messages |}.

(** Modelled from the spec: [blades.Generation], declared outside the
    sources: "the resulting ConversationState"; the chain reads its
    [Messages] field. *)
Record Generation : Type := {
  Messages : list Message
}.

(** The text of one message: its text parts, concatenated in order. *)
Definition messageText (m : Message) : string :=
  fold_left
    (fun content part =>
       match part with
       | TextPart t => append content t
       | _ => content
       end)
    (Parts m) "".

(** Modelled from the spec: [Generation.Text()], the "derived convenience
    view (concatenated text of the newest assistant message)". The receiver
    here is a generation that exists; a call through a nil pointer is
    [deref] in the execution monad below. *)
Definition Text (g : Generation) : string :=
  match find (fun m => String.eqb (Role m) RoleAssistant) (rev (Messages g)) with
  | Some m => messageText m
  | None => ""
  end.

(** [blades.UserMessage(text)]: a user message with one text part. *)
Definition UserMessage (text : string) : Message :=
  {| Role := RoleUser; Status := StatusCompleted; Parts := [TextPart text] |}.

(** [blades.ModelRequest]: the adapters read [Model] and [Messages]. *)
Record ModelRequest : Type := {
  Model : string;
  RequestMessages : list Message
}.

(** [*blades.Agent] as seen by [getStepInfo]: its two getters. *)
Record Agent : Type := {
  Name : string;
  Instructions : string
}.

(** Modelled from the spec: [blades.Runner], declared outside the sources,
    the Step capability "run(context, conversationState, options) ->
    (Generation, error)" that [Chain] is built from and implements.
    [Run(ctx, prompt, opts...)] acts on the world [W] and returns Go's pair:
    a pointer to a Generation (nil is [None]) and an error (nil is [None]).
    [asAgent] is the type assertion to an Agent pointer that [getStepInfo]
    makes. *)
Record Runner (W E Ctx Opt : Type) : Type := {
  Run : Ctx -> Prompt -> list Opt -> W -> (option Generation * option E) * W;
  asAgent : option Agent
}.

Arguments Run {W E Ctx Opt} _ _ _ _ _.
Arguments asAgent {W E Ctx Opt} _.

(** [blades.ModelResponse], declared outside the sources: the adapters
    fill its [Messages] field. *)
Record ModelResponse : Type := {
  ResponseMessages : list Message
}.

End blades.

Import blades.

(** ** The execution monad

    A runner is an opaque effectful function: it acts on a world [W] (the
    remote provider, counters of a test harness, the cancellation state of
    contexts). The chain itself adds three kinds of observable events: it
    invokes a runner, it prints, and it hands a value to the stream. A
    computation returns a value or panics (nil pointer dereference), and
    in both cases leaves a world and the events it produced, oldest
    first. *)

Module exec.

(** The outcome of a computation: a value, or a panic of the Go runtime. *)
Inductive Res (A : Type) : Type :=
| Val (a : A)
| Panic.

Arguments Val {A} a.
Arguments Panic {A}.

Section WithWorld.

Context {W E Ctx Opt : Type}.

(** One invocation [runner.Run(ctx, prompt, opts...)]: the position of the
    runner in [c.runners], the three arguments as passed, the world the
    runner started in and the pair it returned: a pointer to a Generation
    (nil is [None]) and an error (nil is [None]). *)
Record Call : Type := {
  callIndex : nat;
  callCtx : Ctx;
  callPrompt : Prompt;
  callOpts : list Opt;
  callWorld : W;
  callResult : option Generation * option E
}.

(** What [runVerbose] writes to the terminal, one constructor per print
    helper. Colours, box drawing and the measured duration are left out;
    prompts are kept as values, [Prompt.String()] not being among the
    sources. *)
Inductive Output : Type :=
| PrintHeader (totalSteps : nat)
| PrintInitialPrompt (prompt : Prompt)
| PrintProgressBar (current total : nat)
| PrintStepHeader (stepNum : nat) (name instructions : string)
| PrintInput (input : Prompt)
| PrintOutput (output : string)
| PrintSeparator
| PrintError (err : E)
| PrintFinalResult (result : string).

Inductive Event : Type :=
| EvCall (c : Call)
| EvPrint (o : Output)
| EvSend (v : option Generation).

Definition M (A : Type) : Type := W -> Res A * W * list Event.

Definition ret {A : Type} (a : A) : M A :=
  fun w => (Val a, w, []).

Definition bind {A B : Type} (m : M A) (f : A -> M B) : M B :=
  fun w =>
    match m w with
    | (Val a, w1, t1) =>
        match f a w1 with
        | (r, w2, t2) => (r, w2, t1 ++ t2)
        end
    | (Panic, w1, t1) => (Panic, w1, t1)
    end.

Definition emit (e : Event) : M unit :=
  fun w => (Val tt, w, [e]).

Definition print (o : Output) : M unit := emit (EvPrint o).

(** Reading a field or calling a method through a pointer: panics on nil. *)
Definition deref {A : Type} (p : option A) : M A :=
  fun w =>
    match p with
    | Some a => (Val a, w, [])
    | None => (Panic, w, [])
    end.

(** ** Projections of a trace *)

Fixpoint calls (t : list Event) : list Call :=
  match t with
  | [] => []
  | EvCall c :: t' => c :: calls t'
  | _ :: t' => calls t'
  end.

Fixpoint sent (t : list Event) : list (option Generation) :=
  match t with
  | [] => []
  | EvSend v :: t' => v :: sent t'
  | _ :: t' => sent t'
  end.

Fixpoint printed (t : list Event) : list Output :=
  match t with
  | [] => []
  | EvPrint o :: t' => o :: printed t'
  | _ :: t' => printed t'
  end.

(** The positions, in [c.runners], of the runners that were invoked. *)
Definition invoked (t : list Event) : list nat := map callIndex (calls t).

End WithWorld.

Arguments Call : clear implicits.
Arguments Output : clear implicits.
Arguments Event : clear implicits.
Arguments M : clear implicits.

End exec.

Import exec.

Declare Scope go_scope.
Delimit Scope go_scope with go.
Notation "x <- c1 ;; c2" := (bind c1 (fun x => c2))
  (at level 61, c1 at next level, right associativity) : go_scope.
Notation "c1 ;; c2" := (bind c1 (fun _ => c2))
  (at level 61, right associativity) : go_scope.

(** ** Package flow: the chain *)

Module flow.

Section Chain.

Context {W E Ctx Opt : Type}.

(** What the rest of the program (the consumer of a stream, whoever holds
    the cancel function of the context) did to the world since the chain's
    previous action, by the time the runner at position [i] is about to be
    invoked. A chain that runs alone has [env i w = w]. *)
Variable env : nat -> W -> W.

Local Abbreviation Runner := (blades.Runner W E Ctx Opt).
Local Abbreviation M := (exec.M W E Ctx Opt).

Record Chain : Type := {
  runners : list Runner;
  verbose : bool
}.

Definition NewChain (rs : list Runner) : Chain :=
  {| runners := rs; verbose := true |}.

Definition NewChainSilent (rs : list Runner) : Chain :=
  {| runners := rs; verbose := false |}.

Definition SetVerbose (c : Chain) (v : bool) : Chain :=
  {| runners := runners c; verbose := v |}.

(** [runner.Run(ctx, prompt, opts...)] for the runner at position [i]. *)
Definition invoke (i : nat) (runner : Runner) (ctx : Ctx) (prompt : Prompt)
    (opts : list Opt) : M (option Generation * option E) :=
  fun w =>
    let w0 := env i w in
    let (r, w1) := blades.Run runner ctx prompt opts w0 in
    (Val r, w1,
     [EvCall {| callIndex := i; callCtx := ctx; callPrompt := prompt;
                callOpts := opts; callWorld := w0; callResult := r |}]).

(** The loop of [runSilent], from the runner at position [i] on; [last] is
    the variable of that name. *)
Fixpoint runSilentFrom (i : nat) (rs : list Runner) (ctx : Ctx)
    (prompt : Prompt) (opts : list Opt) (last : option Generation)
    : M (option Generation * option E) :=
  match rs with
  | [] => ret (last, None)
  | runner :: rest =>
      (r <- invoke i runner ctx prompt opts ;;
       match snd r with
       | Some err => ret (None, Some err)
       | None =>
           g <- deref (fst r) ;;
           runSilentFrom (S i) rest ctx (NewPrompt (Messages g)) opts (fst r)
       end)%go
  end.

Definition runSilent (c : Chain) (ctx : Ctx) (prompt : Prompt)
    (opts : list Opt) : M (option Generation * option E) :=
  runSilentFrom 0 (runners c) ctx prompt opts None.

(** [fmt.Sprintf("%d", n)]. *)
Definition decimal (n : nat) : string :=
  NilEmpty.string_of_uint (Nat.to_uint n).

Definition getStepInfo (runner : Runner) (stepNum : nat) : string * string :=
  match asAgent runner with
  | Some agent =>
      let name := Name agent in
      let instructions := Instructions agent in
      let name :=
        if String.eqb name "" then append "Agent " (decimal stepNum) else name in
      let instructions :=
        if String.eqb instructions "" then "Processing request..."
        else instructions in
      (name, instructions)
  | None => (append "Step " (decimal stepNum), "Executing task...")
  end.

(** The loop of [runVerbose]. It ends in [inl v] when the function returns
    [v] from inside the loop, and in [inr finalResult] when the range is
    exhausted. [i < totalSteps-1] is on Go ints; the loop body only runs
    with [totalSteps >= 1], where the subtraction on [nat] is the same. *)
Fixpoint runVerboseFrom (totalSteps i : nat) (rs : list Runner) (ctx : Ctx)
    (currentPrompt : Prompt) (opts : list Opt)
    (finalResult : option Generation)
    : M ((option Generation * option E) + option Generation) :=
  match rs with
  | [] => ret (inr finalResult)
  | runner :: rest =>
      (let stepNum := i + 1 in
       print (PrintProgressBar stepNum totalSteps) ;;
       let (stepName, instructions) := getStepInfo runner stepNum in
       print (PrintStepHeader stepNum stepName instructions) ;;
       print (PrintInput currentPrompt) ;;
       r <- invoke i runner ctx currentPrompt opts ;;
       match snd r with
       | Some err =>
           print (PrintError err) ;;
           ret (inl (None, Some err))
       | None =>
           result <- deref (fst r) ;;
           print (PrintOutput (Text result)) ;;
           (if Nat.ltb i (totalSteps - 1) then print PrintSeparator else ret tt) ;;
           runVerboseFrom totalSteps (S i) rest ctx
             (NewPrompt (Messages result)) opts (fst r)
       end)%go
  end.

Definition runVerbose (c : Chain) (ctx : Ctx) (prompt : Prompt)
    (opts : list Opt) : M (option Generation * option E) :=
  (let totalSteps := List.length (runners c) in
   print (PrintHeader totalSteps) ;;
   print (PrintInitialPrompt prompt) ;;
   l <- runVerboseFrom totalSteps 0 (runners c) ctx prompt opts None ;;
   match l with
   | inl v => ret v
   | inr finalResult =>
       g <- deref finalResult ;;
       print (PrintFinalResult (Text g)) ;;
       ret (finalResult, None)
   end)%go.

Definition Run (c : Chain) (ctx : Ctx) (prompt : Prompt) (opts : list Opt)
    : M (option Generation * option E) :=
  if negb (verbose c) then runSilent c ctx prompt opts
  else runVerbose c ctx prompt opts.

(** Modelled from the spec: [blades.StreamPipe], the "background task" and
    its "hand-off channel", neither among the sources. [Go] attaches the
    producer; every [Send] is an event of the trace; the task's return
    value is the stream's "terminal event"; [Wait] is the consumer draining
    the stream to that event. *)
Record StreamPipe : Type := {
  task : option (M (option E))
}.

Definition NewStreamPipe : StreamPipe := {| task := None |}.

Definition Go (pipe : StreamPipe) (fn : M (option E)) : StreamPipe :=
  {| task := Some fn |}.

Definition Send (v : option Generation) : M unit := emit (EvSend v).

Definition Wait (pipe : StreamPipe) : M (option E) :=
  match task pipe with
  | Some fn => fn
  | None => ret None
  end.

(** The closure [RunStream] hands to [pipe.Go], from the runner at
    position [i] on. *)
Fixpoint produceFrom (i : nat) (rs : list Runner) (ctx : Ctx)
    (prompt : Prompt) (opts : list Opt) : M (option E) :=
  match rs with
  | [] => ret None
  | runner :: rest =>
      (r <- invoke i runner ctx prompt opts ;;
       match snd r with
       | Some err => ret (Some err)
       | None =>
           Send (fst r) ;;
           last <- deref (fst r) ;;
           produceFrom (S i) rest ctx (NewPrompt (Messages last)) opts
       end)%go
  end.

Definition RunStream (c : Chain) (ctx : Ctx) (prompt : Prompt)
    (opts : list Opt) : option StreamPipe * option E :=
  let pipe := NewStreamPipe in
  let pipe := Go pipe (produceFrom 0 (runners c) ctx prompt opts) in
  (Some pipe, None).

(** The stream of one call of [RunStream], drained by its consumer. *)
Definition streamed (c : Chain) (ctx : Ctx) (prompt : Prompt)
    (opts : list Opt) : M (option E) :=
  (pipe <- deref (fst (RunStream c ctx prompt opts)) ;;
   Wait pipe)%go.

(** *** Vocabulary of the properties *)

(** The runners [rs], standing at positions [i], [i+1], ..., all complete:
    run in sequence from [prompt] and [w], each returns a generation and no
    error. The result is their generations, and the prompt and the world
    left for a runner that would come next. *)
Fixpoint completes (i : nat) (rs : list Runner) (ctx : Ctx) (prompt : Prompt)
    (opts : list Opt) (w : W) : option (list Generation * Prompt * W) :=
  match rs with
  | [] => Some ([], prompt, w)
  | runner :: rest =>
      match blades.Run runner ctx prompt opts (env i w) with
      | (Some g, None, w1) =>
          match completes (S i) rest ctx (NewPrompt (Messages g)) opts w1 with
          | Some (gs, p', w') => Some (g :: gs, p', w')
          | None => None
          end
      | _ => None
      end
  end.

(** A runner whose result is a function of its arguments alone. *)
Definition deterministic (r : Runner) : Prop :=
  forall ctx prompt opts w1 w2,
    fst (blades.Run r ctx prompt opts w1) = fst (blades.Run r ctx prompt opts w2).

(** Each call after [prev] is the call of the next position, and its prompt
    is [NewPrompt] of the messages of the generation the call before it
    returned. *)
Fixpoint chained (prev : Call W E Ctx Opt) (cs : list (Call W E Ctx Opt))
    : Prop :=
  match cs with
  | [] => True
  | c :: cs' =>
      (callIndex c = S (callIndex prev) /\
       exists g, callResult prev = (Some g, None) /\
                 callPrompt c = NewPrompt (Messages g)) /\
      chained c cs'
  end.

(** The calls of a loop entered at position [i] with [prompt]: the first
    call, if any, is the one of position [i] and receives [prompt], and the
    calls after it are chained. *)
Definition threadedFrom (i : nat) (prompt : Prompt)
    (cs : list (Call W E Ctx Opt)) : Prop :=
  match cs with
  | [] => True
  | c :: cs' => callIndex c = i /\ callPrompt c = prompt /\ chained c cs'
  end.

(** The calls of one execution started on [prompt]. *)
Definition threaded (prompt : Prompt) (cs : list (Call W E Ctx Opt)) : Prop :=
  threadedFrom 0 prompt cs.

(** The arguments the chain received are the ones every runner receives. *)
Definition forwarded (ctx : Ctx) (opts : list Opt)
    (cs : list (Call W E Ctx Opt)) : Prop :=
  Forall (fun c => callCtx c = ctx /\ callOpts c = opts) cs.

(** No runner is started in a world where the context is already done;
    [done ctx w] reads [ctx.Err() != nil] in the world [w]. *)
Definition startsOnlyLive (done : Ctx -> W -> bool)
    (cs : list (Call W E Ctx Opt)) : Prop :=
  Forall (fun c => done (callCtx c) (callWorld c) = false) cs.

(** The generation pointers of the calls that returned no error, in the
    order of the calls. *)
Definition delivered (cs : list (Call W E Ctx Opt))
    : list (option Generation) :=
  map (fun c => fst (callResult c))
      (filter (fun c => match snd (callResult c) with
                        | None => true
                        | Some _ => false
                        end) cs).

(** The pairs [(current, total)] of the progress bars printed. *)
Fixpoint progressBars (os : list (Output E)) : list (nat * nat) :=
  match os with
  | [] => []
  | PrintProgressBar current total :: os' =>
      (current, total) :: progressBars os'
  | _ :: os' => progressBars os'
  end.

(** The number of separators printed. *)
Fixpoint separators (os : list (Output E)) : nat :=
  match os with
  | [] => 0
  | PrintSeparator :: os' => S (separators os')
  | _ :: os' => separators os'
  end.

End Chain.

(** The interference seen by the runners that stand after the first [k]
    of a chain, renumbered from 0. *)
Definition shift {W : Type} (k : nat) (env : nat -> W -> W) : nat -> W -> W :=
  fun i => env (k + i).

End flow.

(** ** Package zeus: the request sent to the provider *)

Module zeus.

(** [ChatProvider], without its HTTP client. *)
Record ChatProvider : Type := {
  apiKey : string;
  baseURL : string;
  pipelineID : string
}.

(** One element of the request's message list, the Go map with the two
    keys "role" and "content". *)
Record ZeusMessage : Type := {
  role : string;
  content : string
}.

(** The request, the Go map with the keys "messages" and "pipeline_id". *)
Record ZeusRequest : Type := {
  messages : list ZeusMessage;
  pipeline_id : string
}.

(** The body of the loop of [convertToZeusRequest] over [req.Messages]:
    [messages] is the slice built so far, [msg] the message at hand. *)
Definition appendMessage (messages : list ZeusMessage) (msg : Message)
    : list ZeusMessage :=
  let role := Role msg in
  let role :=
    if String.eqb role "assistant" then "assistant"
    else if String.eqb role "user" then "user"
    else if String.eqb role "system" then "system"
    else "user" in
  let content :=
    fold_left
      (fun content part =>
         match part with
         | TextPart Text => append content Text
         | _ => content
         end)
      (Parts msg) "" in
  if negb (String.eqb content "")
  then messages ++ [{| role := role; content := content |}]
  else messages.

Definition convertToZeusRequest (p : ChatProvider) (req : ModelRequest)
    : ZeusRequest :=
  let messages := fold_left appendMessage (RequestMessages req) [] in
  {| messages := messages; pipeline_id := pipelineID p |}.

(** *** Vocabulary of the properties *)

(** The closed set of roles of the data model. *)
Definition closedRoles : list string := ["system"; "user"; "assistant"].

Definition inClosedSet (r : string) : bool :=
  existsb (String.eqb r) closedRoles.

(** The text a part contributes: its text for a text part, nothing for a
    file reference or opaque data. *)
Definition partText (part : Part) : string :=
  match part with
  | TextPart t => t
  | FilePart _ => ""
  | DataPart _ => ""
  end.

(** The concatenated text-part content of a message. *)
Definition textContent (m : Message) : string :=
  fold_right append "" (map partText (Parts m)).

Definition hasText (m : Message) : bool :=
  negb (String.eqb (textContent m) "").

Definition isTextPart (part : Part) : bool :=
  match part with
  | TextPart _ => true
  | _ => false
  end.

(** The role a message is sent with, as the data model has it: its own
    when it is in the closed set, "user" otherwise. *)
Definition sentRole (m : Message) : string :=
  if inClosedSet (Role m) then Role m else "user".

(** *** The response and the provider's operations *)

(** [ZeusResponse], as decoded from the JSON body; Go's [int] and [int64]
    are integers. [ChoiceMessage], [ChoiceRole] and [ResponseModel] are the
    fields [Message], [Role] and [Model]. *)
Record ZeusChoiceMessage : Type := {
  Content : string;
  ChoiceRole : string
}.

Record ZeusChoice : Type := {
  FinishReason : string;
  Index : Z;
  ChoiceMessage : ZeusChoiceMessage
}.

Record ZeusUsage : Type := {
  PromptTokens : Z;
  CompletionTokens : Z;
  TotalTokens : Z
}.

Record ZeusResponse : Type := {
  ID : string;
  Choices : list ZeusChoice;
  Created : Z;
  ResponseModel : string;
  Object : string;
  Usage : ZeusUsage
}.

(** An error of this package is the message [fmt.Errorf] builds. *)
Definition convertFromZeusResponse (p : ChatProvider) (resp : ZeusResponse)
    : option ModelResponse * option string :=
  match Choices resp with
  | [] => (None, Some "no choices in Zeus response")
  | choice :: _ =>
      let content := Content (ChoiceMessage choice) in
      (Some {| ResponseMessages :=
                 [{| Role := RoleAssistant;
                     Status := StatusCompleted;
                     Parts := [TextPart content] |}] |},
       None)
  end.

(** [os.Getenv] is the function [getenv]; a panic carries its message
    ([inl]). The HTTP client of the provider is not modelled. *)
Definition NewChatProvider (getenv : string -> string)
    : string + ChatProvider :=
  let apiKey := getenv "ZEUS_API_KEY" in
  if String.eqb apiKey "" then
    inl "ZEUS_API_KEY environment variable is required for Zeus provider"
  else
    let baseURL := getenv "ZEUS_BASE_URL" in
    let baseURL :=
      if String.eqb baseURL "" then "https://api.zeusllm.com/v1"
      else baseURL in
    let pipelineID := getenv "ZEUS_PIPELINE_ID" in
    if String.eqb pipelineID "" then
      inl "ZEUS_PIPELINE_ID environment variable is required for Zeus provider"
    else
      inr {| apiKey := apiKey; baseURL := baseURL; pipelineID := pipelineID |}.

Section Provider.

Context {W Ctx Opt : Type}.

(** [makeRequest], the HTTP exchange: every return statement of it gives
    either an error and no response ([inl]), or a response and no error
    ([inr]). What it marshals, sends and decodes is left to the world. *)
Variable makeRequest :
  ChatProvider -> Ctx -> ZeusRequest -> W -> (string + ZeusResponse) * W.

Definition Generate (p : ChatProvider) (ctx : Ctx) (req : ModelRequest)
    (opts : list Opt) (w : W) : (option ModelResponse * option string) * W :=
  let zeusReq := convertToZeusRequest p req in
  match makeRequest p ctx zeusReq w with
  | (inl err, w1) => ((None, Some err), w1)
  | (inr resp, w1) => (convertFromZeusResponse p resp, w1)
  end.

(** Modelled from the spec: [blades.StreamPipe] at the type of model
    responses; the task returns the terminal event, the world it leaves
    and the values it sent, oldest first. *)
Record ResponsePipe : Type := {
  responseTask : option (W -> option string * W * list (option ModelResponse))
}.

Definition NewStream (p : ChatProvider) (ctx : Ctx) (req : ModelRequest)
    (opts : list Opt) : option ResponsePipe * option string :=
  let task := fun w =>
    match Generate p ctx req opts w with
    | ((_, Some err), w1) => (Some err, w1, [])
    | ((response, None), w1) => (None, w1, [response])
    end in
  (Some {| responseTask := Some task |}, None).

End Provider.

End zeus.

(** ** Test scenarios: runners of a harness *)

Module scenario.

(** A chain that runs alone: nothing else touches the world. *)
Definition alone {W : Type} : nat -> W -> W := fun _ w => w.

(** The consumer cancels the context once the runner at position [k-1] has
    completed and before the one at position [k] starts. The world is the
    cancellation state of the context. *)
Definition cancelBefore (k : nat) : nat -> bool -> bool :=
  fun i w => if Nat.eqb i k then true else w.

(** [ctx.Err() != nil] in a world that is the cancellation state. *)
Definition done : unit -> bool -> bool := fun _ w => w.

(** The text a step reads: the text of the newest message of its prompt. *)
Definition inputText (p : Prompt) : string :=
  match rev (PromptMessages p) with
  | m :: _ => messageText m
  | [] => ""
  end.

Definition AssistantMessage (text : string) : Message :=
  {| Role := RoleAssistant; Status := StatusCompleted;
     Parts := [TextPart text] |}.

Definition reply (text : string) : Generation :=
  {| Messages := [AssistantMessage text] |}.

Definition upper (c : ascii) : ascii :=
  let n := nat_of_ascii c in
  if (97 <=? n)%nat && (n <=? 122)%nat then ascii_of_nat (n - 32) else c.

Fixpoint ToUpper (s : string) : string :=
  match s with
  | EmptyString => EmptyString
  | String c s' => String (upper c) (ToUpper s')
  end.

(** A step that answers with a function of the text it reads. *)
Definition textStep {W : Type} (f : string -> string)
    : Runner W string unit unit :=
  {| blades.Run := fun _ p _ w => ((Some (reply (f (inputText p))), None), w);
     asAgent := None |}.

(** Step A: uppercase the input text. *)
Definition stepA {W : Type} : Runner W string unit unit := textStep ToUpper.

(** Step B: append "!". *)
Definition stepB {W : Type} : Runner W string unit unit :=
  textStep (fun s => append s "!").

(** A step that succeeds with the text "X". *)
Definition stepX {W : Type} : Runner W string unit unit :=
  textStep (fun _ => "X").

(** A step that always fails. *)
Definition failing {W : Type} (err : string) : Runner W string unit unit :=
  {| blades.Run := fun _ _ _ w => ((None, Some err), w); asAgent := None |}.

Definition ErrProvider : string := "provider error".

Definition hello : Prompt := NewPrompt [UserMessage "hello"].

End scenario.

(** ** The executors of the examples *)

(** [ChainStep], [ChainExecutor] and its methods. *)
Module chain_executor.

Section Executor.

Context {W E Ctx Opt : Type}.
Variable env : nat -> W -> W.

Local Abbreviation Runner := (blades.Runner W E Ctx Opt).
Local Abbreviation M := (exec.M W E Ctx Opt).

Record ChainStep : Type := {
  Name : string;
  Instructions : string;
  Agent : Runner
}.

Record ChainExecutor : Type := {
  steps : list ChainStep
}.

Definition NewChainExecutor : ChainExecutor := {| steps := [] |}.

Definition AddStep (ce : ChainExecutor) (name instructions : string)
    (agent : Runner) : ChainExecutor :=
  {| steps := steps ce ++ [{| Name := name; Instructions := instructions;
                              Agent := agent |}] |}.

(** The loop of [Execute]; [step.Agent.Run(ctx, currentPrompt)] passes no
    option. The result is as for [flow.runVerboseFrom]. *)
Fixpoint executeFrom (totalSteps i : nat) (ss : list ChainStep) (ctx : Ctx)
    (currentPrompt : Prompt) (finalResult : option Generation)
    : M ((option Generation * option E) + option Generation) :=
  match ss with
  | [] => ret (inr finalResult)
  | step :: rest =>
      (let stepNum := i + 1 in
       print (PrintProgressBar stepNum totalSteps) ;;
       print (PrintStepHeader stepNum (Name step) (Instructions step)) ;;
       print (PrintInput currentPrompt) ;;
       r <- flow.invoke env i (Agent step) ctx currentPrompt [] ;;
       match snd r with
       | Some err =>
           print (PrintError err) ;;
           ret (inl (None, Some err))
       | None =>
           result <- deref (fst r) ;;
           print (PrintOutput (Text result)) ;;
           (if Nat.ltb i (totalSteps - 1) then print PrintSeparator else ret tt) ;;
           executeFrom totalSteps (S i) rest ctx
             (NewPrompt (Messages result)) (fst r)
       end)%go
  end.

Definition Execute (ce : ChainExecutor) (ctx : Ctx) (initialPrompt : Prompt)
    : M (option Generation * option E) :=
  (let totalSteps := List.length (steps ce) in
   print (PrintHeader totalSteps) ;;
   print (PrintInitialPrompt initialPrompt) ;;
   l <- executeFrom totalSteps 0 (steps ce) ctx initialPrompt None ;;
   match l with
   | inl v => ret v
   | inr finalResult =>
       g <- deref finalResult ;;
       print (PrintFinalResult (Text g)) ;;
       ret (finalResult, None)
   end)%go.

End Executor.

End chain_executor.

(** [FlowExecutor] and its methods. *)
Module flow_executor.

Section Executor.

Context {W E Ctx Opt : Type}.
Variable env : nat -> W -> W.

Local Abbreviation Runner := (blades.Runner W E Ctx Opt).
Local Abbreviation M := (exec.M W E Ctx Opt).
Local Abbreviation ChainStep := (@chain_executor.ChainStep W E Ctx Opt).

Record FlowExecutor : Type := {
  chain : @flow.Chain W E Ctx Opt;
  steps : list ChainStep
}.

Definition NewFlowExecutor (chain : @flow.Chain W E Ctx Opt)
    (steps : list ChainStep) : FlowExecutor :=
  {| chain := chain; steps := steps |}.

(** The loop of [ExecuteWithVisualization]. *)
Fixpoint visualizeFrom (totalSteps i : nat) (ss : list ChainStep) (ctx : Ctx)
    (currentPrompt : Prompt) (finalResult : option Generation)
    : M ((option Generation * option E) + option Generation) :=
  match ss with
  | [] => ret (inr finalResult)
  | step :: rest =>
      (let stepNum := i + 1 in
       print (PrintProgressBar stepNum totalSteps) ;;
       print (PrintStepHeader stepNum (chain_executor.Name step)
                (chain_executor.Instructions step)) ;;
       print (PrintInput currentPrompt) ;;
       r <- flow.invoke env i (chain_executor.Agent step) ctx currentPrompt [] ;;
       match snd r with
       | Some err =>
           print (PrintError err) ;;
           ret (inl (None, Some err))
       | None =>
           result <- deref (fst r) ;;
           print (PrintOutput (Text result)) ;;
           (if Nat.ltb i (totalSteps - 1) then print PrintSeparator else ret tt) ;;
           visualizeFrom totalSteps (S i) rest ctx
             (NewPrompt (Messages result)) (fst r)
       end)%go
  end.

Definition ExecuteWithVisualization (fe : FlowExecutor) (ctx : Ctx)
    (prompt : Prompt) : M (option Generation * option E) :=
  (let totalSteps := List.length (steps fe) in
   print (PrintHeader totalSteps) ;;
   print (PrintInitialPrompt prompt) ;;
   l <- visualizeFrom totalSteps 0 (steps fe) ctx prompt None ;;
   match l with
   | inl v => ret v
   | inr finalResult =>
       g <- deref finalResult ;;
       print (PrintFinalResult (Text g)) ;;
       ret (finalResult, None)
   end)%go.

(** [fe.chain.Run(ctx, prompt)]: no option is passed. *)
Definition Execute (fe : FlowExecutor) (ctx : Ctx) (prompt : Prompt)
    : M (option Generation * option E) :=
  flow.Run env (chain fe) ctx prompt [].

End Executor.

End flow_executor.

(** ** The loader of .env files of the examples *)

Module envfile.

(** The environment of the process, as [os.LookupEnv] reads it. *)
Definition Env : Type := string -> option string.

Definition Getenv (e : Env) (key : string) : string :=
  match e key with
  | Some value => value
  | None => ""
  end.

Fixpoint contains (c : ascii) (s : string) : bool :=
  match s with
  | EmptyString => false
  | String c' s' => Ascii.eqb c' c || contains c s'
  end.

(** [os.Setenv] on Unix, its error dropped as [loadEnvFile] drops it: the
    call is refused, and changes nothing, when the key is empty or holds
    "=" or a NUL byte, or when the value holds a NUL byte. *)
Definition Setenv (key value : string) (e : Env) : Env :=
  if String.eqb key "" || contains "=" key || contains "000" key
     || contains "000" value
  then e
  else fun k => if String.eqb k key then Some value else e k.

(** [strings.Cut(s, "=")]: the text before and after the first "=". *)
Fixpoint cut (s : string) : option (string * string) :=
  match s with
  | EmptyString => None
  | String c s' =>
      if Ascii.eqb c "=" then Some ("", s')
      else match cut s' with
           | Some (before, after) => Some (String c before, after)
           | None => None
           end
  end.

(** [strings.SplitN(s, "=", 2)]. *)
Definition SplitN2 (s : string) : list string :=
  match cut s with
  | Some (before, after) => [before; after]
  | None => [s]
  end.

Section Loader.

Context {E : Type}.

(** [strings.TrimSpace], of Go's library. *)
Variable TrimSpace : string -> string.

(** [os.Open] followed by a [bufio.Scanner]: an error of [os.Open], or the
    lines [scanner.Text()] yields and what [scanner.Err()] returns after
    the last. *)
Variable openFile : string -> E + (list string * option E).

(** The body of the loop of [loadEnvFile]. *)
Definition setLine (e : Env) (text : string) : Env :=
  let line := TrimSpace text in
  if String.eqb line "" || prefix "#" line then e
  else
    match SplitN2 line with
    | [k; v] =>
        let key := TrimSpace k in
        let value := TrimSpace v in
        Setenv key value e
    | _ => e
    end.

Definition loadEnvFile (filename : string) (e : Env) : option E * Env :=
  match openFile filename with
  | inl err => (Some err, e)
  | inr (lines, scanErr) => (scanErr, fold_left setLine lines e)
  end.

Definition loadConfig (e : Env) : Env :=
  let e := snd (loadEnvFile ".env" e) in
  let e := snd (loadEnvFile "chain/.env" e) in
  e.

(** The lines a file contributes: none when it cannot be opened. *)
Definition linesOf (filename : string) : list string :=
  match openFile filename with
  | inl _ => []
  | inr (lines, _) => lines
  end.

(** The line [key=value] is a plain assignment: the line, the key and the
    value carry no white space for [TrimSpace] to remove, the key is
    neither empty nor the start of a comment, and [os.Setenv] accepts the
    pair. *)
Definition plain (key value : string) : Prop :=
  TrimSpace (append key (append "=" value)) = append key (append "=" value) /\
  TrimSpace key = key /\
  TrimSpace value = value /\
  key <> "" /\
  prefix "#" key = false /\
  contains "=" key = false /\
  contains "000" key = false /\
  contains "000" value = false.

End Loader.

End envfile.

(** ** Package gemini: the request and the responses *)

Module gemini.

Definition ErrEmptyResponse : string := "empty completion response".

(** [genai.Part]: the text parts the adapter builds and reads, and the
    parts of other kinds a response may hold. *)
Inductive genaiPart : Type :=
| genaiText (text : string)
| genaiOther.

(** [genai.Content], as far as the adapter reads it: [ContentParts] is
    its field [Parts]. *)
Record genaiContent : Type := {
  ContentParts : list genaiPart
}.

(** [genai.Candidate]: its [Content] is a pointer, nil being [None]. *)
Record Candidate : Type := {
  Content : option genaiContent
}.

(** [genai.GenerateContentResponse]: [Candidates] is a slice of pointers,
    nil being [None]. *)
Record GenerateContentResponse : Type := {
  Candidates : list (option Candidate)
}.

(** [candidate.Content.Parts] read through the two pointers: [None] is the
    nil pointer dereference, a panic. *)
Definition contentParts (candidate : option Candidate)
    : option (list genaiPart) :=
  match candidate with
  | None => None
  | Some c =>
      match Content c with
      | None => None
      | Some content => Some (ContentParts content)
      end
  end.

(** The loop over [req.Messages] and [msg.Parts] that opens [Generate] and
    [NewStream]. *)
Definition convertParts (msgs : list Message) : list genaiPart :=
  fold_left
    (fun parts msg =>
       fold_left
         (fun parts part =>
            match part with
            | TextPart Text => parts ++ [genaiText Text]
            | FilePart URI => parts ++ [genaiText (append "File: " URI)]
            | DataPart Bytes =>
                parts ++ [genaiText (append "Data: " (string_of_list_byte Bytes))]
            end)
         (Parts msg) parts)
    msgs [].

(** The text of the parts of a candidate, as the loop over them builds
    it. *)
Definition candidateText (parts : list genaiPart) : string :=
  fold_left
    (fun responseText part =>
       match part with
       | genaiText text => append responseText text
       | genaiOther => responseText
       end)
    parts "".

Section Provider.

Context {W Ctx Opt : Type}.

(** [model.GenerateContent(ctx, parts...)] of the client, for the model of
    the given name: an error, or a response. *)
Variable GenerateContent :
  string -> Ctx -> list genaiPart -> W
  -> (string + GenerateContentResponse) * W.

Definition Generate (ctx : Ctx) (req : ModelRequest) (opts : list Opt) (w : W)
    : Res (option ModelResponse * option string) * W :=
  let parts := convertParts (RequestMessages req) in
  match GenerateContent (Model req) ctx parts w with
  | (inl err, w1) => (Val (None, Some err), w1)
  | (inr resp, w1) =>
      match Candidates resp with
      | [] => (Val (None, Some ErrEmptyResponse), w1)
      | candidate :: _ =>
          match contentParts candidate with
          | None => (Panic, w1)
          | Some parts =>
              let responseText := candidateText parts in
              (Val (Some {| ResponseMessages :=
                              [{| Role := RoleAssistant;
                                  Status := StatusCompleted;
                                  Parts := [TextPart responseText] |}] |},
                    None), w1)
          end
      end
  end.

(** The incremental response [NewStream] sends for one text part. *)
Definition chunk (text : string) : ModelResponse :=
  {| ResponseMessages :=
       [{| Role := RoleAssistant; Status := StatusIncomplete;
           Parts := [TextPart text] |}] |}.

(** The loop over the parts of the first candidate of one response: the
    state is the variable [fullText] and the values sent so far. *)
Definition sendParts (parts : list genaiPart)
    (st : string * list ModelResponse) : string * list ModelResponse :=
  fold_left
    (fun st part =>
       match part with
       | genaiText text => (append (fst st) text, snd st ++ [chunk text])
       | genaiOther => st
       end)
    parts st.

(** The closure of [NewStream], on an iterator that yields the responses
    [resps] and then fails with [err] (an iterator that never fails keeps
    the loop running): the loop leaves through [return err], or by the
    panic of a nil pointer dereference. The result is the terminal event,
    or the panic, with [fullText] and the values sent until then. *)
Fixpoint produce (resps : list GenerateContentResponse) (err : string)
    (st : string * list ModelResponse)
    : Res (option string) * (string * list ModelResponse) :=
  match resps with
  | [] => (Val (Some err), st)
  | resp :: rest =>
      match Candidates resp with
      | [] => produce rest err st
      | candidate :: _ =>
          match contentParts candidate with
          | None => (Panic, st)
          | Some parts => produce rest err (sendParts parts st)
          end
      end
  end.

End Provider.

(** *** Vocabulary of the properties *)

(** A part of a message as the text it is sent as. *)
Definition sentAs (part : Part) : string :=
  match part with
  | TextPart t => t
  | FilePart uri => append "File: " uri
  | DataPart bytes => append "Data: " (string_of_list_byte bytes)
  end.

(** The texts among parts of a response. *)
Fixpoint texts (parts : list genaiPart) : list string :=
  match parts with
  | [] => []
  | genaiText t :: parts' => t :: texts parts'
  | genaiOther :: parts' => texts parts'
  end.

(** The texts of the first candidate of a response; none when there is
    no candidate or when its content cannot be read. *)
Definition firstTexts (resp : GenerateContentResponse) : list string :=
  match Candidates resp with
  | [] => []
  | candidate :: _ =>
      match contentParts candidate with
      | Some parts => texts parts
      | None => []
      end
  end.

(** A response the adapter can read: it has no candidate, or its first
    candidate is not nil and has a content that is not nil. *)
Definition readable (resp : GenerateContentResponse) : bool :=
  match Candidates resp with
  | [] => true
  | candidate :: _ =>
      match contentParts candidate with
      | Some _ => true
      | None => false
      end
  end.

(** The responses that come before the first one that cannot be read. *)
Fixpoint readablePrefix (resps : list GenerateContentResponse)
    : list GenerateContentResponse :=
  match resps with
  | [] => []
  | resp :: rest =>
      if readable resp then resp :: readablePrefix rest else []
  end.

End gemini.

(** ** Inputs of the examples *)

Module harness.

Import scenario.

(** The two steps of the scenario, as an executor is given them. *)
Definition twoSteps {W : Type}
    : list (@chain_executor.ChainStep W string unit unit) :=
  [{| chain_executor.Name := "Upper";
      chain_executor.Instructions := "Uppercase the input text.";
      chain_executor.Agent := stepA |};
   {| chain_executor.Name := "Bang";
      chain_executor.Instructions := "Append an exclamation mark.";
      chain_executor.Agent := stepB |}].

(** A response of Zeus with one choice. *)
Definition oneChoice (text : string) : zeus.ZeusResponse :=
  {| zeus.ID := "r1";
     zeus.Choices :=
       [{| zeus.FinishReason := "stop"; zeus.Index := 0%Z;
           zeus.ChoiceMessage :=
             {| zeus.Content := text; zeus.ChoiceRole := "assistant" |} |}];
     zeus.Created := 0%Z;
     zeus.ResponseModel := "llama-3.3-70b";
     zeus.Object := "chat.completion";
     zeus.Usage := {| zeus.PromptTokens := 1%Z;
                      zeus.CompletionTokens := 1%Z;
                      zeus.TotalTokens := 2%Z |} |}.

(** A transport that answers every request with its first content. *)
Definition echo : zeus.ChatProvider -> unit -> zeus.ZeusRequest -> unit
                  -> (string + zeus.ZeusResponse) * unit :=
  fun _ _ zeusReq w =>
    match zeus.messages zeusReq with
    | [] => (inl "empty request", w)
    | z :: _ => (inr (oneChoice (zeus.content z)), w)
    end.

Definition provider : zeus.ChatProvider :=
  {| zeus.apiKey := "key"; zeus.baseURL := "https://api.zeusllm.com/v1";
     zeus.pipelineID := "pipeline" |}.

(** Two requests that differ in all that Zeus is not sent. *)
Definition requestA : ModelRequest :=
  {| Model := "llama-3.3-70b";
     RequestMessages :=
       [UserMessage "hi";
        {| Role := "tool"; Status := StatusIncomplete;
           Parts := [FilePart "file:///a"; TextPart "x"] |};
        {| Role := "system"; Status := StatusCompleted;
           Parts := [FilePart "file:///b"] |}] |}.

Definition requestB : ModelRequest :=
  {| Model := "another-model";
     RequestMessages :=
       [UserMessage "hi";
        {| Role := "user"; Status := StatusCompleted;
           Parts := [TextPart "x"] |}] |}.

Definition isBlank (c : ascii) : bool :=
  match nat_of_ascii c with
  | 9 | 10 | 11 | 12 | 13 | 32 => true
  | _ => false
  end.

Fixpoint trimLeft (s : string) : string :=
  match s with
  | EmptyString => EmptyString
  | String c s' => if isBlank c then trimLeft s' else s
  end.

Fixpoint trimRight (s : string) : string :=
  match s with
  | EmptyString => EmptyString
  | String c s' =>
      match trimRight s' with
      | EmptyString => if isBlank c then EmptyString else String c EmptyString
      | t => String c t
      end
  end.

(** [strings.TrimSpace] on text whose white space is ASCII. *)
Definition trimASCII (s : string) : string := trimRight (trimLeft s).

(** A directory where only "chain/.env" exists. *)
Definition onlyChainEnv : string -> string + (list string * option string) :=
  fun name =>
    if String.eqb name "chain/.env"
    then inr (["# Zeus"; "ZEUS_API_KEY=old"; "ZEUS_API_KEY=a=b"], None)
    else inl "no such file".

End harness.

(** Unfolds one layer of the monad in the goal. *)
Ltac go_simpl :=
  cbv beta iota delta
    [bind ret emit print deref flow.invoke flow.Send] in *;
  cbn beta iota zeta delta [fst snd] in *.

(** * Properties *)

(** ** Traces *)

Section TraceFacts.

Context {W E Ctx Opt : Type}.

Local Abbreviation Event := (exec.Event W E Ctx Opt).

Lemma calls_app (t1 t2 : list Event) :
  calls (t1 ++ t2) = calls t1 ++ calls t2.
Proof.
  induction t1 as [|e t1 IH]; simpl; [reflexivity|].
  destruct e; simpl; rewrite IH; reflexivity.
Qed.

Lemma sent_app (t1 t2 : list Event) :
  sent (t1 ++ t2) = sent t1 ++ sent t2.
Proof.
  induction t1 as [|e t1 IH]; simpl; [reflexivity|].
  destruct e; simpl; rewrite IH; reflexivity.
Qed.

Lemma invoked_app (t1 t2 : list Event) :
  invoked (t1 ++ t2) = invoked t1 ++ invoked t2.
Proof.
  unfold invoked. rewrite calls_app, map_app. reflexivity.
Qed.

Lemma last_cons_default {A : Type} (a d : A) (l : list A) :
  last (a :: l) d = last l a.
Proof.
  revert a d. induction l as [|b l IH]; intros a d; [reflexivity|].
  change (last (a :: b :: l) d) with (last (b :: l) d).
  rewrite (IH b d), (IH b a). reflexivity.
Qed.

End TraceFacts.

(** ** The three loops on a prefix of runners that complete *)

Section LoopFacts.

Context {W E Ctx Opt : Type}.
Variable env : nat -> W -> W.

Local Abbreviation Runner := (blades.Runner W E Ctx Opt).
Local Abbreviation Event := (exec.Event W E Ctx Opt).
Local Abbreviation Chain := (@flow.Chain W E Ctx Opt).

Lemma completes_cons_inv i (runner : Runner) rest ctx prompt opts w gs p' w' :
  flow.completes env i (runner :: rest) ctx prompt opts w = Some (gs, p', w') ->
  exists g w1 gs',
    blades.Run runner ctx prompt opts (env i w) = (Some g, None, w1) /\
    flow.completes env (S i) rest ctx (NewPrompt (Messages g)) opts w1
      = Some (gs', p', w') /\
    gs = g :: gs'.
Proof.
  simpl.
  destruct (blades.Run runner ctx prompt opts (env i w)) as [[[g|] [e|]] w1];
    try discriminate.
  destruct (flow.completes env (S i) rest ctx (NewPrompt (Messages g)) opts w1)
    as [[[gs' q] v]|] eqn:Hrest; try discriminate.
  intro H. injection H as <- <- <-.
  exists g, w1, gs'. auto.
Qed.

Lemma completes_length i (rs : list Runner) ctx prompt opts w gs p' w' :
  flow.completes env i rs ctx prompt opts w = Some (gs, p', w') ->
  List.length gs = List.length rs.
Proof.
  revert i prompt w gs.
  induction rs as [|runner rest IH]; intros i prompt w gs H.
  - simpl in H. injection H as <- _ _. reflexivity.
  - apply completes_cons_inv in H.
    destruct H as (g & w1 & gs' & _ & Hrest & ->).
    simpl. f_equal. eapply IH, Hrest.
Qed.

Lemma produceFrom_prefix (pre : list Runner) :
  forall i ctx prompt opts w gs p' w',
    flow.completes env i pre ctx prompt opts w = Some (gs, p', w') ->
    exists t1,
      invoked t1 = seq i (List.length pre) /\
      sent t1 = map Some gs /\
      forall tail,
        flow.produceFrom env i (pre ++ tail) ctx prompt opts w =
        match flow.produceFrom env (i + List.length pre) tail ctx p' opts w' with
        | (r, w2, t2) => (r, w2, t1 ++ t2)
        end.
Proof.
  induction pre as [|runner rest IH]; intros i ctx prompt opts w gs p' w' H.
  - simpl in H. injection H as <- <- <-.
    exists []. split; [reflexivity|]. split; [reflexivity|].
    intro tail. rewrite Nat.add_0_r. simpl.
    destruct (flow.produceFrom env i tail ctx prompt opts w) as [[r w2] t2].
    reflexivity.
  - apply completes_cons_inv in H.
    destruct H as (g & w1 & gs' & Hrun & Hrest & ->).
    destruct (IH _ _ _ _ _ _ _ _ Hrest) as (t1 & Hinv & Hsent & Hloop).
    exists (EvCall {| callIndex := i; callCtx := ctx; callPrompt := prompt;
                      callOpts := opts; callWorld := env i w;
                      callResult := (Some g, None) |}
            :: EvSend (Some g) :: t1).
    split; [|split].
    + unfold invoked in *. simpl. rewrite Hinv. reflexivity.
    + simpl. rewrite Hsent. reflexivity.
    + intro tail. simpl. go_simpl. rewrite Hrun. go_simpl.
      rewrite Hloop. rewrite <- (Nat.add_succ_comm i (List.length rest)).
      destruct (flow.produceFrom env (S i + List.length rest) tail ctx p' opts w')
        as [[r w2] t2].
      reflexivity.
Qed.

Lemma runSilentFrom_prefix (pre : list Runner) :
  forall i ctx prompt opts last0 w gs p' w',
    flow.completes env i pre ctx prompt opts w = Some (gs, p', w') ->
    exists t1,
      invoked t1 = seq i (List.length pre) /\
      forall tail,
        flow.runSilentFrom env i (pre ++ tail) ctx prompt opts last0 w =
        match flow.runSilentFrom env (i + List.length pre) tail ctx p' opts
                (last (map Some gs) last0) w' with
        | (r, w2, t2) => (r, w2, t1 ++ t2)
        end.
Proof.
  induction pre as [|runner rest IH];
    intros i ctx prompt opts last0 w gs p' w' H.
  - simpl in H. injection H as <- <- <-.
    exists []. split; [reflexivity|].
    intro tail. rewrite Nat.add_0_r. simpl.
    destruct (flow.runSilentFrom env i tail ctx prompt opts last0 w)
      as [[r w2] t2].
    reflexivity.
  - apply completes_cons_inv in H.
    destruct H as (g & w1 & gs' & Hrun & Hrest & ->).
    destruct (IH _ _ _ _ (Some g) _ _ _ _ Hrest) as (t1 & Hinv & Hloop).
    exists (EvCall {| callIndex := i; callCtx := ctx; callPrompt := prompt;
                      callOpts := opts; callWorld := env i w;
                      callResult := (Some g, None) |}
            :: t1).
    split.
    + unfold invoked in *. simpl. rewrite Hinv. reflexivity.
    + intro tail.
      change (map Some (g :: gs')) with (Some g :: map Some gs').
      rewrite (last_cons_default (Some g) last0 (map Some gs')).
      simpl. go_simpl. rewrite Hrun. go_simpl.
      rewrite Hloop. rewrite <- (Nat.add_succ_comm i (List.length rest)).
      destruct (flow.runSilentFrom env (S i + List.length rest) tail ctx p' opts
                  (last (map Some gs') (Some g)) w')
        as [[r w2] t2].
      reflexivity.
Qed.

Lemma runVerboseFrom_prefix (pre : list Runner) :
  forall total i ctx prompt opts fr w gs p' w',
    flow.completes env i pre ctx prompt opts w = Some (gs, p', w') ->
    exists t1,
      invoked t1 = seq i (List.length pre) /\
      forall tail,
        flow.runVerboseFrom env total i (pre ++ tail) ctx prompt opts fr w =
        match flow.runVerboseFrom env total (i + List.length pre) tail ctx p'
                opts (last (map Some gs) fr) w' with
        | (r, w2, t2) => (r, w2, t1 ++ t2)
        end.
Proof.
  induction pre as [|runner rest IH];
    intros total i ctx prompt opts fr w gs p' w' H.
  - simpl in H. injection H as <- <- <-.
    exists []. split; [reflexivity|].
    intro tail. rewrite Nat.add_0_r. simpl.
    destruct (flow.runVerboseFrom env total i tail ctx prompt opts fr w)
      as [[r w2] t2].
    reflexivity.
  - apply completes_cons_inv in H.
    destruct H as (g & w1 & gs' & Hrun & Hrest & ->).
    destruct (IH total _ _ _ _ (Some g) _ _ _ _ Hrest) as (t1 & Hinv & Hloop).
    destruct (flow.getStepInfo runner (i + 1)) as [name ins] eqn:Hinfo.
    exists ([EvPrint (PrintProgressBar (i + 1) total);
             EvPrint (PrintStepHeader (i + 1) name ins);
             EvPrint (PrintInput prompt);
             EvCall {| callIndex := i; callCtx := ctx; callPrompt := prompt;
                       callOpts := opts; callWorld := env i w;
                       callResult := (Some g, None) |};
             EvPrint (PrintOutput (Text g))]
            ++ (if Nat.ltb i (total - 1) then [EvPrint PrintSeparator] else [])
            ++ t1).
    split.
    + rewrite !invoked_app.
      destruct (Nat.ltb i (total - 1)); unfold invoked in *; simpl;
        rewrite Hinv; reflexivity.
    + intro tail.
      change (map Some (g :: gs')) with (Some g :: map Some gs').
      rewrite (last_cons_default (Some g) fr (map Some gs')).
      simpl. go_simpl. rewrite Hinfo. go_simpl.
      rewrite Hrun. go_simpl.
      destruct (Nat.ltb i (total - 1)); go_simpl;
        rewrite Hloop; rewrite <- (Nat.add_succ_comm i (List.length rest));
        destruct (flow.runVerboseFrom env total (S i + List.length rest) tail
                    ctx p' opts (last (map Some gs') (Some g)) w')
          as [[r w2] t2];
        reflexivity.
Qed.

(** ** A run that returns a generation went through every runner *)

Lemma runSilentFrom_val (rs : list Runner) :
  forall i ctx prompt opts last0 w g w' t,
    flow.runSilentFrom env i rs ctx prompt opts last0 w
      = (Val (g, None), w', t) ->
    exists gs p',
      flow.completes env i rs ctx prompt opts w = Some (gs, p', w') /\
      g = last (map Some gs) last0.
Proof.
  induction rs as [|runner rest IH];
    intros i ctx prompt opts last0 w g w' t H.
  - simpl in H. go_simpl. injection H as <- <- _.
    exists [], prompt. split; reflexivity.
  - simpl in H. go_simpl.
    destruct (blades.Run runner ctx prompt opts (env i w))
      as [[og oe] w1] eqn:Hrun.
    go_simpl. destruct oe as [err|]; [discriminate|].
    destruct og as [g0|]; [|discriminate].
    destruct (flow.runSilentFrom env (S i) rest ctx (NewPrompt (Messages g0))
                opts (Some g0) w1) as [[r w2] t2] eqn:Hrec.
    injection H as -> -> _.
    destruct (IH _ _ _ _ _ _ _ _ _ Hrec) as (gs & p' & Hc & ->).
    exists (g0 :: gs), p'. split.
    + simpl. rewrite Hrun, Hc. reflexivity.
    + change (map Some (g0 :: gs)) with (Some g0 :: map Some gs).
      rewrite last_cons_default. reflexivity.
Qed.

Lemma runVerboseFrom_val (rs : list Runner) :
  forall total i ctx prompt opts fr w l w' t,
    flow.runVerboseFrom env total i rs ctx prompt opts fr w
      = (Val l, w', t) ->
    (exists err, l = inl (None, Some err)) \/
    (exists gs p',
       l = inr (last (map Some gs) fr) /\
       flow.completes env i rs ctx prompt opts w = Some (gs, p', w')).
Proof.
  induction rs as [|runner rest IH];
    intros total i ctx prompt opts fr w l w' t H.
  - simpl in H. go_simpl. injection H as <- <- _.
    right. exists [], prompt. split; reflexivity.
  - simpl in H. go_simpl.
    destruct (flow.getStepInfo runner (i + 1)) as [name ins].
    go_simpl.
    destruct (blades.Run runner ctx prompt opts (env i w))
      as [[og oe] w1] eqn:Hrun.
    go_simpl. destruct oe as [err|].
    { go_simpl. injection H as <- _ _. left. exists err. reflexivity. }
    destruct og as [g0|]; [|discriminate].
    assert (Hrec : exists t2,
      flow.runVerboseFrom env total (S i) rest ctx (NewPrompt (Messages g0))
        opts (Some g0) w1 = (Val l, w', t2)).
    { destruct (Nat.ltb i (total - 1)); go_simpl;
        destruct (flow.runVerboseFrom env total (S i) rest ctx
                    (NewPrompt (Messages g0)) opts (Some g0) w1)
          as [[r w2] t2];
        injection H as -> -> _; exists t2; reflexivity. }
    destruct Hrec as [t2 Hrec].
    destruct (IH _ _ _ _ _ _ _ _ _ _ Hrec) as [Herr | (gs & p' & -> & Hc)];
      [left; exact Herr|].
    right. exists (g0 :: gs), p'. split.
    + change (map Some (g0 :: gs)) with (Some g0 :: map Some gs).
      rewrite last_cons_default. reflexivity.
    + simpl. rewrite Hrun, Hc. reflexivity.
Qed.

Lemma Run_val (c : Chain) ctx prompt opts w g w' t :
  flow.Run env c ctx prompt opts w = (Val (g, None), w', t) ->
  exists gs p',
    flow.completes env 0 (flow.runners c) ctx prompt opts w
      = Some (gs, p', w') /\
    g = last (map Some gs) None.
Proof.
  unfold flow.Run. destruct (flow.verbose c); simpl.
  - unfold flow.runVerbose. go_simpl.
    destruct (flow.runVerboseFrom env (List.length (flow.runners c)) 0
                (flow.runners c) ctx prompt opts None w)
      as [[[l|] w1] t1] eqn:Hloop; [|discriminate].
    destruct (runVerboseFrom_val _ _ _ _ _ _ _ _ _ _ _ Hloop)
      as [[err ->] | (gs & p' & -> & Hc)].
    + go_simpl. discriminate.
    + destruct (last (map Some gs) None) as [g1|] eqn:Hlast;
        go_simpl; [|discriminate].
      intro H. injection H as <- <- _.
      exists gs, p'. split; [exact Hc | symmetry; exact Hlast].
  - unfold flow.runSilent. apply runSilentFrom_val.
Qed.


(** ** Every loop threads the prompt *)

Lemma threadedFrom_step i prompt (c : Call W E Ctx Opt) cs g :
  callIndex c = i ->
  callPrompt c = prompt ->
  callResult c = (Some g, None) ->
  flow.threadedFrom (S i) (NewPrompt (Messages g)) cs ->
  flow.threadedFrom i prompt (c :: cs).
Proof.
  intros Hi Hp Hr Hcs. unfold flow.threadedFrom in *.
  split; [exact Hi|]. split; [exact Hp|].
  destruct cs as [|c' cs']; simpl; [exact I|].
  destruct Hcs as (Hi' & Hp' & Hch).
  split; [|exact Hch].
  split; [congruence|]. exists g. split; assumption.
Qed.

Lemma threadedFrom_single i prompt (c : Call W E Ctx Opt) :
  callIndex c = i ->
  callPrompt c = prompt ->
  flow.threadedFrom i prompt [c].
Proof. intros Hi Hp. repeat split; assumption. Qed.

Lemma runSilentFrom_threaded (rs : list Runner) :
  forall i ctx prompt opts last0 w,
    flow.threadedFrom i prompt
      (calls (snd (flow.runSilentFrom env i rs ctx prompt opts last0 w))).
Proof.
  induction rs as [|runner rest IH]; intros i ctx prompt opts last0 w.
  - exact I.
  - simpl. go_simpl.
    destruct (blades.Run runner ctx prompt opts (env i w)) as [[og oe] w1].
    go_simpl. destruct oe as [err|].
    { apply threadedFrom_single; reflexivity. }
    destruct og as [g|].
    { specialize (IH (S i) ctx (NewPrompt (Messages g)) opts (Some g) w1).
      destruct (flow.runSilentFrom env (S i) rest ctx (NewPrompt (Messages g))
                  opts (Some g) w1) as [[r w2] t2].
      cbn [snd calls app] in *.
      eapply threadedFrom_step; [reflexivity .. | exact IH]. }
    apply threadedFrom_single; reflexivity.
Qed.

Lemma runVerboseFrom_threaded (rs : list Runner) :
  forall total i ctx prompt opts fr w,
    flow.threadedFrom i prompt
      (calls (snd (flow.runVerboseFrom env total i rs ctx prompt opts fr w))).
Proof.
  induction rs as [|runner rest IH]; intros total i ctx prompt opts fr w.
  - exact I.
  - simpl. go_simpl.
    destruct (flow.getStepInfo runner (i + 1)) as [name ins].
    go_simpl.
    destruct (blades.Run runner ctx prompt opts (env i w)) as [[og oe] w1].
    go_simpl. destruct oe as [err|].
    { apply threadedFrom_single; reflexivity. }
    destruct og as [g|].
    { specialize (IH total (S i) ctx (NewPrompt (Messages g)) opts (Some g) w1).
      destruct (Nat.ltb i (total - 1)); go_simpl;
        destruct (flow.runVerboseFrom env total (S i) rest ctx
                    (NewPrompt (Messages g)) opts (Some g) w1)
          as [[r w2] t2];
        cbn [snd calls app] in *;
        (eapply threadedFrom_step; [reflexivity .. | exact IH]). }
    apply threadedFrom_single; reflexivity.
Qed.

Lemma produceFrom_threaded (rs : list Runner) :
  forall i ctx prompt opts w,
    flow.threadedFrom i prompt
      (calls (snd (flow.produceFrom env i rs ctx prompt opts w))).
Proof.
  induction rs as [|runner rest IH]; intros i ctx prompt opts w.
  - exact I.
  - simpl. go_simpl.
    destruct (blades.Run runner ctx prompt opts (env i w)) as [[og oe] w1].
    go_simpl. destruct oe as [err|].
    { apply threadedFrom_single; reflexivity. }
    destruct og as [g|].
    { specialize (IH (S i) ctx (NewPrompt (Messages g)) opts w1).
      destruct (flow.produceFrom env (S i) rest ctx (NewPrompt (Messages g))
                  opts w1) as [[r w2] t2].
      cbn [snd calls app] in *.
      eapply threadedFrom_step; [reflexivity .. | exact IH]. }
    apply threadedFrom_single; reflexivity.
Qed.

Lemma produceFrom_forwarded (rs : list Runner) :
  forall i ctx prompt opts w,
    flow.forwarded ctx opts
      (calls (snd (flow.produceFrom env i rs ctx prompt opts w))).
Proof.
  induction rs as [|runner rest IH]; intros i ctx prompt opts w.
  - constructor.
  - simpl. go_simpl.
    destruct (blades.Run runner ctx prompt opts (env i w)) as [[og oe] w1].
    go_simpl. destruct oe as [err|].
    { repeat constructor. }
    destruct og as [g|].
    { specialize (IH (S i) ctx (NewPrompt (Messages g)) opts w1).
      destruct (flow.produceFrom env (S i) rest ctx (NewPrompt (Messages g))
                  opts w1) as [[r w2] t2].
      cbn [snd calls app] in *.
      constructor; [split; reflexivity | exact IH]. }
    repeat constructor.
Qed.

Lemma streamed_unfold (c : Chain) ctx prompt opts w :
  flow.streamed env c ctx prompt opts w =
  match flow.produceFrom env 0 (flow.runners c) ctx prompt opts w with
  | (r, w2, t2) => (r, w2, t2)
  end.
Proof.
  unfold flow.streamed, flow.RunStream, flow.Wait, flow.Go. go_simpl.
  cbn [flow.task].
  destruct (flow.produceFrom env 0 (flow.runners c) ctx prompt opts w)
    as [[r w2] t2].
  reflexivity.
Qed.

Lemma streamed_produce (c : Chain) ctx prompt opts w :
  flow.streamed env c ctx prompt opts w =
  flow.produceFrom env 0 (flow.runners c) ctx prompt opts w.
Proof.
  rewrite streamed_unfold.
  destruct (flow.produceFrom env 0 (flow.runners c) ctx prompt opts w)
    as [[r w2] t2].
  reflexivity.
Qed.

End LoopFacts.

(** * The claims about the chain *)

Section ChainTheorems.

Context {W E Ctx Opt : Type}.
Variables env env2 : nat -> W -> W.

Local Abbreviation Runner := (blades.Runner W E Ctx Opt).
Local Abbreviation Event := (exec.Event W E Ctx Opt).
Local Abbreviation Chain := (@flow.Chain W E Ctx Opt).

(** ** Deterministic runners complete in every world *)

Lemma completes_deterministic (rs : list Runner) :
  Forall flow.deterministic rs ->
  forall i ctx prompt opts w1 w2 gs p' w1',
    flow.completes env i rs ctx prompt opts w1 = Some (gs, p', w1') ->
    exists w2',
      flow.completes env2 i rs ctx prompt opts w2 = Some (gs, p', w2').
Proof.
  induction 1 as [|runner rest Hdet _ IH];
    intros i ctx prompt opts w1 w2 gs p' w1' H.
  - simpl in H. injection H as <- <- _. exists w2. reflexivity.
  - apply (completes_cons_inv env) in H.
    destruct H as (g & v & gs' & Hrun & Hrest & ->).
    pose proof (Hdet ctx prompt opts (env i w1) (env2 i w2)) as Hsame.
    rewrite Hrun in Hsame. simpl in Hsame.
    destruct (blades.Run runner ctx prompt opts (env2 i w2))
      as [res v2] eqn:Hrun2.
    simpl in Hsame. subst res.
    destruct (IH _ _ _ _ _ v2 _ _ _ Hrest) as [w2' Hc].
    exists w2'. simpl. rewrite Hrun2, Hc. reflexivity.
Qed.

(** C1. Abort on failure, blocking mode. When the runners before position
    [k] complete and the runner at position [k] returns an error [err]
    (with whatever generation pointer), [Run] returns a nil generation and
    [err] itself, the world is the one the failing runner left, and the
    runners invoked are exactly those of positions [0..k]: none of the
    runners after the failing one is invoked. This holds with [verbose]
    set and unset. *)
Theorem Run_aborts_on_first_error
    (pre post : list Runner) (r : Runner) (v : bool)
    ctx prompt opts w gs p' w' g err w'' :
  flow.completes env 0 pre ctx prompt opts w = Some (gs, p', w') ->
  blades.Run r ctx p' opts (env (List.length pre) w') = (g, Some err, w'') ->
  exists t,
    flow.Run env {| flow.runners := pre ++ r :: post; flow.verbose := v |}
      ctx prompt opts w
    = (Val (None, Some err), w'', t) /\
    invoked t = seq 0 (S (List.length pre)).
Proof.
  intros Hc Hrun. unfold flow.Run. destruct v; cbn [negb flow.verbose].
  - unfold flow.runVerbose. cbn [flow.runners]. go_simpl.
    destruct (runVerboseFrom_prefix env pre (List.length (pre ++ r :: post))
                0 ctx prompt opts None w gs p' w' Hc) as (t1 & Hinv & Hloop).
    rewrite Hloop. cbn [Nat.add flow.runVerboseFrom]. go_simpl.
    destruct (flow.getStepInfo r (List.length pre + 1)) as [name ins].
    go_simpl. rewrite Hrun. go_simpl.
    eexists. split; [reflexivity|].
    rewrite !invoked_app, Hinv, seq_S.
    cbn [invoked calls map callIndex app Nat.add].
    rewrite ?app_nil_r. reflexivity.
  - unfold flow.runSilent. cbn [flow.runners].
    destruct (runSilentFrom_prefix env pre 0 ctx prompt opts None w gs p' w' Hc)
      as (t1 & Hinv & Hloop).
    rewrite Hloop. cbn [Nat.add flow.runSilentFrom]. go_simpl.
    rewrite Hrun. go_simpl.
    eexists. split; [reflexivity|].
    rewrite !invoked_app, Hinv, seq_S.
    cbn [invoked calls map callIndex app Nat.add].
    rewrite ?app_nil_r. reflexivity.
Qed.

(** C2. Ordering. In every execution of a chain, blocking (silent or
    verbose) and streaming, the first runner invoked is the one of position
    0 and receives the caller's prompt; every later invocation is the one
    of the next position, made after the previous runner returned a
    generation [g] and no error, and its prompt is [NewPrompt] of the
    messages of [g], so the caller's prompt is passed to the first runner
    only. *)
Theorem prompt_is_threaded (c : Chain) ctx prompt opts w :
  flow.threaded prompt (calls (snd (flow.Run env c ctx prompt opts w))) /\
  flow.threaded prompt (calls (snd (flow.streamed env c ctx prompt opts w))).
Proof.
  split.
  - unfold flow.Run. destruct (flow.verbose c); cbn [negb].
    + unfold flow.runVerbose. go_simpl.
      pose proof (runVerboseFrom_threaded env (flow.runners c)
                    (List.length (flow.runners c)) 0 ctx prompt opts None w)
        as Hloop.
      destruct (flow.runVerboseFrom env (List.length (flow.runners c)) 0
                  (flow.runners c) ctx prompt opts None w)
        as [[[l|] w1] t1]; cbn [snd] in Hloop.
      * destruct l as [v|[g|]]; go_simpl; cbn [snd];
          rewrite !calls_app; cbn [calls app];
          rewrite ?app_nil_r; exact Hloop.
      * cbn [snd calls app]. exact Hloop.
    + apply runSilentFrom_threaded.
  - rewrite streamed_produce. apply produceFrom_threaded.
Qed.

(** C3. Equivalence of modes. For a chain of deterministic runners, if
    blocking [Run] returns the generation pointer [g] and no error, then the
    stream of [RunStream] on the same arguments, in whatever world it runs,
    ends without an error and the last value it delivered is [g]. *)
Theorem Run_equals_last_streamed (c : Chain) ctx prompt opts w1 w2 g w1' t1 :
  Forall flow.deterministic (flow.runners c) ->
  flow.Run env c ctx prompt opts w1 = (Val (g, None), w1', t1) ->
  exists w2' t2,
    flow.streamed env2 c ctx prompt opts w2 = (Val None, w2', t2) /\
    last (sent t2) None = g.
Proof.
  intros Hdet Hrun.
  destruct (Run_val env c ctx prompt opts w1 g w1' t1 Hrun)
    as (gs & p' & Hc & ->).
  destruct (completes_deterministic _ Hdet 0 ctx prompt opts w1 w2 gs p' w1' Hc)
    as [w2' Hc2].
  destruct (produceFrom_prefix env2 _ 0 ctx prompt opts w2 gs p' w2' Hc2)
    as (t & _ & Hsent & Hloop).
  specialize (Hloop []). rewrite app_nil_r in Hloop.
  cbn [flow.produceFrom] in Hloop. go_simpl.
  exists w2', (t ++ []). split.
  - rewrite (streamed_produce env2). exact Hloop.
  - rewrite app_nil_r, Hsent. reflexivity.
Qed.

(** C4. Stream order. When the runners before position [k] complete with
    the generations [gs], then (a) the stream of the chain made of these
    runners delivers exactly [gs], one value per runner and in the order of
    the runners, and ends without an error; and (b) if the runner at
    position [k] returns an error [err], the stream of the chain delivers
    exactly [gs], then ends with [err], and the runners invoked are those
    of positions [0..k] only. *)
Theorem stream_order (pre : list Runner) ctx prompt opts w gs p' w' :
  flow.completes env 0 pre ctx prompt opts w = Some (gs, p', w') ->
  (exists t,
     flow.streamed env (flow.NewChain pre) ctx prompt opts w
       = (Val None, w', t) /\
     sent t = map Some gs /\
     List.length gs = List.length pre /\
     invoked t = seq 0 (List.length pre)) /\
  (forall (r : Runner) (post : list Runner) g err w'',
     blades.Run r ctx p' opts (env (List.length pre) w') = (g, Some err, w'') ->
     exists t,
       flow.streamed env (flow.NewChain (pre ++ r :: post)) ctx prompt opts w
         = (Val (Some err), w'', t) /\
       sent t = map Some gs /\
       invoked t = seq 0 (S (List.length pre))).
Proof.
  intro Hc.
  destruct (produceFrom_prefix env pre 0 ctx prompt opts w gs p' w' Hc)
    as (t1 & Hinv & Hsent & Hloop).
  split.
  - exists (t1 ++ []). rewrite streamed_produce. cbn [flow.NewChain flow.runners].
    specialize (Hloop []). rewrite app_nil_r in Hloop.
    cbn [flow.produceFrom] in Hloop. go_simpl.
    rewrite app_nil_r. rewrite app_nil_r in Hloop.
    repeat split; try assumption.
    apply (completes_length env _ _ _ _ _ _ _ _ _ Hc).
  - intros r post g err w'' Hrun.
    rewrite streamed_produce. cbn [flow.NewChain flow.runners].
    rewrite Hloop. cbn [Nat.add flow.produceFrom]. go_simpl.
    rewrite Hrun. go_simpl.
    eexists. split; [reflexivity|]. split.
    + rewrite sent_app, Hsent. cbn [sent app]. apply app_nil_r.
    + rewrite !invoked_app, Hinv, seq_S.
      cbn [invoked calls map callIndex app Nat.add].
      rewrite ?app_nil_r. reflexivity.
Qed.

(** C5, as the code has it. The producer of [RunStream] never reads the
    context: whatever the rest of the program did to the world in the
    meantime (cancelling the context included), once the runners before
    position [k] have completed the runner at position [k] is invoked, with
    the context and the options of the caller, on the prompt built from the
    last generation and in the world as it stands; the values of the
    runners that completed are delivered; and every runner invoked
    receives the caller's context unchanged, so that honouring a
    cancellation is left to the runners. *)
Theorem stream_leaves_cancellation_to_runners
    (pre post : list Runner) (r : Runner) ctx prompt opts w gs p' w' :
  flow.completes env 0 pre ctx prompt opts w = Some (gs, p', w') ->
  In {| callIndex := List.length pre; callCtx := ctx; callPrompt := p';
        callOpts := opts; callWorld := env (List.length pre) w';
        callResult :=
          fst (blades.Run r ctx p' opts (env (List.length pre) w')) |}
     (calls (snd (flow.streamed env (flow.NewChain (pre ++ r :: post))
                    ctx prompt opts w))) /\
  (exists rest,
     sent (snd (flow.streamed env (flow.NewChain (pre ++ r :: post))
                  ctx prompt opts w))
     = map Some gs ++ rest) /\
  flow.forwarded ctx opts
    (calls (snd (flow.streamed env (flow.NewChain (pre ++ r :: post))
                   ctx prompt opts w))).
Proof.
  intro Hc.
  split; [|split].
  - destruct (produceFrom_prefix env pre 0 ctx prompt opts w gs p' w' Hc)
      as (t1 & _ & _ & Hloop).
    rewrite streamed_produce. cbn [flow.NewChain flow.runners].
    rewrite Hloop. cbn [Nat.add flow.produceFrom]. go_simpl.
    destruct (blades.Run r ctx p' opts (env (List.length pre) w'))
      as [[og oe] w1].
    go_simpl.
    assert (Hin : forall t2 : list Event,
      In {| callIndex := List.length pre; callCtx := ctx; callPrompt := p';
            callOpts := opts; callWorld := env (List.length pre) w';
            callResult := (og, oe) |}
         (calls (t1 ++
                 EvCall {| callIndex := List.length pre; callCtx := ctx;
                           callPrompt := p'; callOpts := opts;
                           callWorld := env (List.length pre) w';
                           callResult := (og, oe) |} :: t2))).
    { intro t2. rewrite calls_app. apply in_or_app. right. left. reflexivity. }
    destruct oe as [err|]; [apply Hin|].
    destruct og as [g|]; [|apply Hin].
    destruct (flow.produceFrom env (S (List.length pre)) post ctx
                (NewPrompt (Messages g)) opts w1) as [[r2 w2] t2].
    apply Hin.
  - destruct (produceFrom_prefix env pre 0 ctx prompt opts w gs p' w' Hc)
      as (t1 & _ & Hsent & Hloop).
    rewrite streamed_produce. cbn [flow.NewChain flow.runners].
    rewrite Hloop.
    destruct (flow.produceFrom env (0 + List.length pre) (r :: post) ctx p'
                opts w') as [[r2 w2] t2].
    cbn [snd]. rewrite sent_app, Hsent. exists (sent t2). reflexivity.
  - rewrite streamed_produce. apply produceFrom_forwarded.
Qed.

(** C6, at the failing input. A chain of zero runners: with [verbose]
    unset, [Run] returns a nil generation and a nil error and does nothing
    else; with [verbose] set, as [NewChain] sets it, [Run] prints the
    header and the initial prompt and then panics, on the call of [Text]
    through the nil [finalResult]. *)
Theorem Run_of_no_runners ctx prompt opts (w : W) :
  flow.Run env (flow.NewChainSilent (@nil Runner)) ctx prompt opts w
    = (Val (None, None), w, []) /\
  flow.Run env (flow.NewChain (@nil Runner)) ctx prompt opts w
    = (Panic, w,
       [EvPrint (PrintHeader 0); EvPrint (PrintInitialPrompt prompt)]).
Proof. split; reflexivity. Qed.

(** C10. [RunStream] returns, for every chain and every input, a handle
    that is not nil together with a nil error, whatever the runners will
    do. What the runners do is met by draining the handle: when every
    runner completes, the stream delivers their generations and ends
    without an error; and when the runners before position [k] complete
    and the runner at position [k] returns an error, that error, which the
    call did not return, is the terminal event of the stream, after the
    generations of the runners that completed. *)
Theorem RunStream_returns_handle (c : Chain) ctx prompt opts :
  exists pipe,
    flow.RunStream env c ctx prompt opts = (Some pipe, None) /\
    (forall w gs p' w',
       flow.completes env 0 (flow.runners c) ctx prompt opts w
         = Some (gs, p', w') ->
       exists t,
         flow.Wait pipe w = (Val None, w', t) /\ sent t = map Some gs) /\
    (forall pre (r : Runner) post w gs p' w' g err w'',
       flow.runners c = pre ++ r :: post ->
       flow.completes env 0 pre ctx prompt opts w = Some (gs, p', w') ->
       blades.Run r ctx p' opts (env (List.length pre) w')
         = (g, Some err, w'') ->
       exists t,
         flow.Wait pipe w = (Val (Some err), w'', t) /\
         sent t = map Some gs).
Proof.
  eexists. split; [reflexivity|].
  unfold flow.Wait, flow.Go. cbn [flow.task]. split.
  - intros w gs p' w' Hc.
    destruct (produceFrom_prefix env (flow.runners c) 0 ctx prompt opts w
                gs p' w' Hc) as (t1 & _ & Hsent & Hloop).
    specialize (Hloop []). rewrite app_nil_r in Hloop.
    cbn [flow.produceFrom] in Hloop. go_simpl.
    exists (t1 ++ []). split; [exact Hloop|].
    rewrite app_nil_r. exact Hsent.
  - intros pre r post w gs p' w' g err w'' Hrs Hc Hrun.
    destruct (produceFrom_prefix env pre 0 ctx prompt opts w gs p' w' Hc)
      as (t1 & _ & Hsent & Hloop).
    rewrite Hrs, Hloop. cbn [Nat.add flow.produceFrom]. go_simpl.
    rewrite Hrun. go_simpl.
    eexists. split; [reflexivity|].
    rewrite sent_app, Hsent. cbn [sent app]. apply app_nil_r.
Qed.

End ChainTheorems.

(** * The claims on the scenarios of the specification *)

Section Scenarios.

Import scenario.

Local Abbreviation Step := (blades.Runner unit string unit unit).
Local Abbreviation StepB := (blades.Runner bool string unit unit).

(** The scenario of the specification: a step that succeeds with "X", a
    step that always fails with [ErrProvider], and a step after it. *)
Lemma Run_aborts_on_first_error_witness :
  exists t,
    flow.Run alone
      {| flow.runners := [stepX : Step] ++ failing ErrProvider :: [stepB];
         flow.verbose := true |} tt hello [] tt
    = (Val (None, Some ErrProvider), tt, t) /\
    invoked t = seq 0 (S (List.length [stepX : Step])).
Proof.
  apply (Run_aborts_on_first_error alone [stepX : Step] [stepB]
           (failing ErrProvider) true tt hello [] tt
           [reply "X"] (NewPrompt (Messages (reply "X"))) tt
           None ErrProvider tt);
    reflexivity.
Defined.

(** Steps A and B: blocking [Run] of a chain that runs alone, against the
    stream of a run whose context is cancelled on the way. *)
Lemma Run_equals_last_streamed_witness :
  exists w2' t2,
    flow.streamed (cancelBefore 1) (flow.NewChain [stepA : StepB; stepB])
      tt hello [] false
    = (Val None, w2', t2) /\
    last (sent t2) None = Some (reply "HELLO!").
Proof.
  eapply (Run_equals_last_streamed alone (cancelBefore 1)
            (flow.NewChain [stepA : StepB; stepB]) tt hello [] false false).
  - repeat constructor; intros ctx prompt opts w1 w2; reflexivity.
  - reflexivity.
Defined.

(** One value "X", then the stream ends: without an error for the chain of
    the first step alone, with [ErrProvider] when the failing step follows. *)
Lemma stream_order_witness :
  (exists t,
     flow.streamed alone (flow.NewChain [stepX : Step]) tt hello [] tt
       = (Val None, tt, t) /\
     sent t = map Some [reply "X"] /\
     List.length [reply "X"] = List.length [stepX : Step] /\
     invoked t = seq 0 (List.length [stepX : Step])) /\
  (exists t,
     flow.streamed alone
       (flow.NewChain ([stepX : Step] ++ failing ErrProvider :: [stepB]))
       tt hello [] tt
       = (Val (Some ErrProvider), tt, t) /\
     sent t = map Some [reply "X"] /\
     invoked t = seq 0 (S (List.length [stepX : Step]))).
Proof.
  destruct (stream_order alone [stepX : Step] tt hello [] tt
              [reply "X"] (NewPrompt (Messages (reply "X"))) tt eq_refl)
    as [Hall Hfail].
  split; [exact Hall|].
  apply (Hfail (failing ErrProvider) [stepB] None ErrProvider tt).
  reflexivity.
Defined.

(** The context is done before the second runner starts, and the second
    runner is invoked in that world. *)
Lemma stream_leaves_cancellation_to_runners_witness :
  done tt (cancelBefore 1 1 false) = true /\
  In {| callIndex := 1; callCtx := tt;
        callPrompt := NewPrompt (Messages (reply "HELLO"));
        callOpts := []; callWorld := true;
        callResult := (Some (reply "HELLO!"), None) |}
     (calls (snd (flow.streamed (cancelBefore 1)
                    (flow.NewChain [stepA : StepB; stepB])
                    tt hello [] false))).
Proof.
  split; [reflexivity|].
  apply (stream_leaves_cancellation_to_runners (cancelBefore 1)
           [stepA : StepB] [] stepB tt hello [] false
           [reply "HELLO"] (NewPrompt (Messages (reply "HELLO"))) false
           eq_refl).
Defined.

(** The failing step of the scenario: the call returns a handle and a nil
    error, and [ErrProvider] ends the stream after the value "X". *)
Lemma RunStream_returns_handle_witness :
  exists pipe,
    flow.RunStream alone
      (flow.NewChain ([stepX : Step] ++ failing ErrProvider :: [stepB]))
      tt hello []
    = (Some pipe, None) /\
    exists t,
      flow.Wait pipe tt = (Val (Some ErrProvider), tt, t) /\
      sent t = map Some [reply "X"].
Proof.
  destruct (RunStream_returns_handle alone
              (flow.NewChain ([stepX : Step] ++ failing ErrProvider :: [stepB]))
              tt hello [])
    as (pipe & Hcall & _ & Hfail).
  exists pipe. split; [exact Hcall|].
  apply (Hfail [stepX : Step] (failing ErrProvider) [stepB] tt
           [reply "X"] (NewPrompt (Messages (reply "X"))) tt
           None ErrProvider tt);
    reflexivity.
Defined.

(** C5, as the claim states it, fails. The context is live when the stream
    starts and the consumer cancels it once the first runner has completed,
    before the second starts; both runners are invoked all the same, the
    second in a world where the context is done, and both values are
    delivered. *)
Lemma stream_runs_after_cancellation :
  invoked (snd (flow.streamed (cancelBefore 1)
                  (flow.NewChain [stepA : StepB; stepB]) tt hello [] false))
    = [0; 1] /\
  sent (snd (flow.streamed (cancelBefore 1)
               (flow.NewChain [stepA : StepB; stepB]) tt hello [] false))
    = [Some (reply "HELLO"); Some (reply "HELLO!")] /\
  ~ flow.startsOnlyLive done
      (calls (snd (flow.streamed (cancelBefore 1)
                     (flow.NewChain [stepA : StepB; stepB])
                     tt hello [] false))).
Proof.
  split; [reflexivity|]. split; [reflexivity|].
  intro H. vm_compute in H.
  inversion H as [|c cs _ Htail]. inversion Htail as [|c' cs' Hdone _].
  discriminate Hdone.
Qed.

(** C7. The chain [Step A: uppercase the input text; Step B: append "!"]
    on the input text "hello": blocking [Run], verbose as [NewChain] makes
    it and silent, returns a generation whose text is "HELLO!" and no
    error; the stream of [RunStream] delivers exactly two values, of texts
    "HELLO" then "HELLO!", and ends without an error. *)
Theorem scenario_uppercase_then_bang :
  (exists g,
     fst (fst (flow.Run alone (flow.NewChain [stepA : Step; stepB])
                 tt hello [] tt))
       = Val (Some g, None) /\
     Text g = "HELLO!") /\
  (exists g,
     fst (fst (flow.Run alone (flow.NewChainSilent [stepA : Step; stepB])
                 tt hello [] tt))
       = Val (Some g, None) /\
     Text g = "HELLO!") /\
  fst (fst (flow.streamed alone (flow.NewChain [stepA : Step; stepB])
              tt hello [] tt))
    = Val None /\
  map (option_map Text)
      (sent (snd (flow.streamed alone (flow.NewChain [stepA : Step; stepB])
                    tt hello [] tt)))
    = [Some "HELLO"; Some "HELLO!"].
Proof.
  split; [|split; [|split]].
  - eexists. split; reflexivity.
  - eexists. split; reflexivity.
  - reflexivity.
  - reflexivity.
Qed.

End Scenarios.

(** * The claims about the Zeus adapter *)

Section ZeusFacts.

Import zeus.

Lemma append_nil_r (s : string) : append s "" = s.
Proof. induction s as [|c s IH]; simpl; [reflexivity | rewrite IH; reflexivity]. Qed.

Lemma append_assoc (s1 s2 s3 : string) :
  append (append s1 s2) s3 = append s1 (append s2 s3).
Proof.
  induction s1 as [|c s1 IH]; simpl; [reflexivity | rewrite IH; reflexivity].
Qed.

Lemma content_fold (parts : list Part) :
  forall acc,
    fold_left
      (fun content part =>
         match part with
         | TextPart Text => append content Text
         | _ => content
         end) parts acc
    = append acc (fold_right append "" (map partText parts)).
Proof.
  induction parts as [|part parts IH]; intro acc; simpl.
  - symmetry. apply append_nil_r.
  - rewrite IH. destruct part; simpl; [apply append_assoc | reflexivity ..].
Qed.

Lemma role_switch (r : string) :
  (if String.eqb r "assistant" then "assistant"
   else if String.eqb r "user" then "user"
   else if String.eqb r "system" then "system"
   else "user")
  = if inClosedSet r then r else "user".
Proof.
  unfold inClosedSet, closedRoles. cbn [existsb].
  destruct (String.eqb_spec r "assistant") as [->|_]; [reflexivity|].
  destruct (String.eqb_spec r "user") as [->|_]; [reflexivity|].
  destruct (String.eqb_spec r "system") as [->|_]; reflexivity.
Qed.

Lemma appendMessage_fold (msgs : list Message) :
  forall acc,
    fold_left appendMessage msgs acc
    = acc ++ map (fun m => {| role := sentRole m; content := textContent m |})
                 (filter hasText msgs).
Proof.
  induction msgs as [|msg msgs IH]; intro acc.
  - simpl. symmetry. apply app_nil_r.
  - cbn [fold_left filter]. rewrite IH.
    unfold appendMessage. rewrite content_fold, role_switch. cbn [append].
    unfold hasText at 2. fold (textContent msg). fold (sentRole msg).
    destruct (negb (String.eqb (textContent msg) "")); cbn [map].
    + rewrite <- app_assoc. reflexivity.
    + reflexivity.
Qed.

(** The request's message list, in closed form. *)
Lemma convertToZeusRequest_messages (p : ChatProvider) (req : ModelRequest) :
  messages (convertToZeusRequest p req)
  = map (fun m => {| role := sentRole m; content := textContent m |})
        (filter hasText (RequestMessages req)).
Proof.
  unfold convertToZeusRequest. cbn [messages].
  apply (appendMessage_fold (RequestMessages req) []).
Qed.

(** C8. Every message of the request sent to Zeus comes from an input
    message that has text, in order, and carries the role of that message
    when the role is one of system, user and assistant, and the role
    "user" otherwise. *)
Theorem zeus_roles_normalized (p : ChatProvider) (req : ModelRequest) :
  Forall2
    (fun m z => role z = if inClosedSet (Role m) then Role m else "user")
    (filter hasText (RequestMessages req))
    (messages (convertToZeusRequest p req)).
Proof.
  rewrite convertToZeusRequest_messages.
  induction (filter hasText (RequestMessages req)) as [|m ms IH];
    constructor; [reflexivity | exact IH].
Qed.

(** C9. The messages of the request sent to Zeus are, in their order, the
    input messages whose concatenated text is not empty, each with that
    text as its content; a message none of whose parts is a text part has
    empty text and is left out. *)
Theorem zeus_drops_messages_without_text
    (p : ChatProvider) (req : ModelRequest) :
  Forall2
    (fun m z => content z = textContent m)
    (filter hasText (RequestMessages req))
    (messages (convertToZeusRequest p req)) /\
  Forall (fun z => content z <> "") (messages (convertToZeusRequest p req)) /\
  forall m,
    forallb (fun part => negb (isTextPart part)) (Parts m) = true ->
    hasText m = false.
Proof.
  rewrite convertToZeusRequest_messages. split; [|split].
  - induction (filter hasText (RequestMessages req)) as [|m ms IH];
      constructor; [reflexivity | exact IH].
  - apply Forall_map, Forall_forall. intros m Hin.
    apply filter_In in Hin. destruct Hin as [_ Hm]. cbn [content].
    unfold hasText in Hm. apply negb_true_iff, String.eqb_neq in Hm. exact Hm.
  - intros m Hparts. unfold hasText, textContent.
    induction (Parts m) as [|part parts IH]; [reflexivity|].
    cbn [forallb] in Hparts. apply andb_true_iff in Hparts.
    destruct Hparts as [Hpart Hrest].
    destruct part; [discriminate Hpart | exact (IH Hrest) ..].
Qed.

End ZeusFacts.

(** * Further properties of the chain *)

Section ChainExtras.

Context {W E Ctx Opt : Type}.
Variable env : nat -> W -> W.

Local Abbreviation Runner := (blades.Runner W E Ctx Opt).
Local Abbreviation Event := (exec.Event W E Ctx Opt).
Local Abbreviation Chain := (@flow.Chain W E Ctx Opt).

Lemma printed_app (t1 t2 : list Event) :
  printed (t1 ++ t2) = printed t1 ++ printed t2.
Proof.
  induction t1 as [|e t1 IH]; simpl; [reflexivity|].
  destruct e; simpl; rewrite IH; reflexivity.
Qed.

(** The verbose loop against the silent one, entered in the same state. *)
Lemma runVerboseFrom_silent (rs : list Runner) :
  forall total i ctx prompt opts fr w,
    match flow.runVerboseFrom env total i rs ctx prompt opts fr w,
          flow.runSilentFrom env i rs ctx prompt opts fr w with
    | (rv, wv, tv), (rq, wq, tq) =>
        wv = wq /\ calls tv = calls tq /\
        match rv with
        | Val (inl v) => rq = Val v
        | Val (inr f) =>
            rq = Val (f, None) /\ (rs <> [] \/ fr <> None -> f <> None)
        | Panic => rq = Panic
        end
    end.
Proof.
  induction rs as [|runner rest IH]; intros total i ctx prompt opts fr w.
  - simpl. go_simpl. repeat split. intros [H|H]; [contradiction | exact H].
  - simpl. go_simpl.
    destruct (flow.getStepInfo runner (i + 1)) as [name ins]. go_simpl.
    destruct (blades.Run runner ctx prompt opts (env i w)) as [[og oe] w1].
    go_simpl. destruct oe as [err|]; [go_simpl; repeat split|].
    destruct og as [g|]; [|repeat split].
    specialize (IH total (S i) ctx (NewPrompt (Messages g)) opts (Some g) w1).
    destruct (flow.runSilentFrom env (S i) rest ctx (NewPrompt (Messages g))
                opts (Some g) w1) as [[rq wq] tq].
    destruct (Nat.ltb i (total - 1)); go_simpl;
      destruct (flow.runVerboseFrom env total (S i) rest ctx
                  (NewPrompt (Messages g)) opts (Some g) w1)
        as [[rv wv] tv];
      destruct IH as (Hw & Hc & Hr);
      (split; [exact Hw|]);
      (split; [cbn [calls app]; rewrite Hc; reflexivity|]);
      destruct rv as [[v|f]|]; try exact Hr;
      (destruct Hr as [Hr Hf]; split; [exact Hr|]);
      intros _; apply Hf; right; discriminate.
Qed.

Lemma runVerbose_silent (c : Chain) ctx prompt opts w :
  flow.runners c <> [] ->
  fst (flow.runVerbose env c ctx prompt opts w)
    = fst (flow.runSilent env c ctx prompt opts w) /\
  calls (snd (flow.runVerbose env c ctx prompt opts w))
    = calls (snd (flow.runSilent env c ctx prompt opts w)).
Proof.
  intro Hne. unfold flow.runVerbose, flow.runSilent. go_simpl.
  pose proof (runVerboseFrom_silent (flow.runners c)
                (List.length (flow.runners c)) 0 ctx prompt opts None w) as H.
  destruct (flow.runSilentFrom env 0 (flow.runners c) ctx prompt opts None w)
    as [[rq wq] tq].
  destruct (flow.runVerboseFrom env (List.length (flow.runners c)) 0
              (flow.runners c) ctx prompt opts None w) as [[rv wv] tv].
  destruct H as (Hw & Hc & Hr). subst wq.
  destruct rv as [[v|f]|]; go_simpl.
  - subst rq. cbn [fst snd]. rewrite !calls_app. cbn [calls app].
    rewrite app_nil_r. split; [reflexivity | exact Hc].
  - destruct Hr as [-> Hf].
    destruct f as [g|]; [|exfalso; apply Hf; [left; exact Hne | reflexivity]].
    go_simpl. cbn [fst snd]. rewrite !calls_app. cbn [calls app].
    rewrite app_nil_r. split; [reflexivity | exact Hc].
  - subst rq. cbn [fst snd calls app]. split; [reflexivity | exact Hc].
Qed.

(** X1. Verbosity is presentation only. For a chain of at least one
    runner, [Run] with [verbose] set and [Run] with [verbose] unset, by
    [SetVerbose], return the same pair or panic alike, leave the same
    world, and make the same calls: the same runners, on the same prompts,
    in the same worlds, with the same results. *)
Theorem verbose_changes_only_the_prints (c : Chain) ctx prompt opts w :
  flow.runners c <> [] ->
  fst (flow.Run env (flow.SetVerbose c true) ctx prompt opts w)
    = fst (flow.Run env (flow.SetVerbose c false) ctx prompt opts w) /\
  calls (snd (flow.Run env (flow.SetVerbose c true) ctx prompt opts w))
    = calls (snd (flow.Run env (flow.SetVerbose c false) ctx prompt opts w)).
Proof.
  intro Hne.
  exact (runVerbose_silent (flow.SetVerbose c true) ctx prompt opts w Hne).
Qed.

(** The stream's producer against the silent loop. *)
Lemma produceFrom_silent (rs : list Runner) :
  forall i ctx prompt opts last0 w,
    match flow.produceFrom env i rs ctx prompt opts w,
          flow.runSilentFrom env i rs ctx prompt opts last0 w with
    | (rp, wp, tp), (rq, wq, tq) =>
        wp = wq /\ calls tp = calls tq /\
        rp = match rq with
             | Val v => Val (snd v)
             | Panic => Panic
             end /\
        sent tp = flow.delivered (calls tp)
    end.
Proof.
  induction rs as [|runner rest IH]; intros i ctx prompt opts last0 w.
  - simpl. go_simpl. repeat split.
  - simpl. go_simpl.
    destruct (blades.Run runner ctx prompt opts (env i w)) as [[og oe] w1].
    go_simpl. destruct oe as [err|]; [repeat split|].
    destruct og as [g|]; [|repeat split].
    specialize (IH (S i) ctx (NewPrompt (Messages g)) opts (Some g) w1).
    destruct (flow.runSilentFrom env (S i) rest ctx (NewPrompt (Messages g))
                opts (Some g) w1) as [[rq wq] tq].
    destruct (flow.produceFrom env (S i) rest ctx (NewPrompt (Messages g))
                opts w1) as [[rp wp] tp].
    destruct IH as (Hw & Hc & Hr & Hs).
    split; [exact Hw|].
    split; [cbn [calls app]; rewrite Hc; reflexivity|].
    split; [exact Hr|].
    cbn [sent calls app]. unfold flow.delivered in *.
    cbn [filter callResult snd map fst]. rewrite Hs. reflexivity.
Qed.

(** X2. Streaming against blocking, in one world. The stream of
    [RunStream] and the silent [Run] of the same chain, started in the same
    world, make the same calls and leave the same world; the stream ends
    with the error [Run] returns (none where [Run] returns none) and panics
    where [Run] panics; and the values it delivers are, in order, the
    generation pointers of the calls that returned no error. *)
Theorem stream_mirrors_silent_run (c : Chain) ctx prompt opts w :
  snd (fst (flow.streamed env c ctx prompt opts w))
    = snd (fst (flow.runSilent env c ctx prompt opts w)) /\
  calls (snd (flow.streamed env c ctx prompt opts w))
    = calls (snd (flow.runSilent env c ctx prompt opts w)) /\
  fst (fst (flow.streamed env c ctx prompt opts w))
    = match fst (fst (flow.runSilent env c ctx prompt opts w)) with
      | Val v => Val (snd v)
      | Panic => Panic
      end /\
  sent (snd (flow.streamed env c ctx prompt opts w))
    = flow.delivered (calls (snd (flow.streamed env c ctx prompt opts w))).
Proof.
  rewrite (streamed_produce env). unfold flow.runSilent.
  pose proof (produceFrom_silent (flow.runners c) 0 ctx prompt opts None w)
    as H.
  destruct (flow.produceFrom env 0 (flow.runners c) ctx prompt opts w)
    as [[rp wp] tp].
  destruct (flow.runSilentFrom env 0 (flow.runners c) ctx prompt opts None w)
    as [[rq wq] tq].
  exact H.
Qed.

(** The silent loop invokes an initial segment of its runners. *)
Lemma runSilentFrom_invoked (rs : list Runner) :
  forall i ctx prompt opts last0 w,
    exists n,
      n <= List.length rs /\
      invoked (snd (flow.runSilentFrom env i rs ctx prompt opts last0 w))
        = seq i n /\
      (forall v,
         fst (fst (flow.runSilentFrom env i rs ctx prompt opts last0 w))
           = Val v ->
         snd v = None -> n = List.length rs).
Proof.
  induction rs as [|runner rest IH]; intros i ctx prompt opts last0 w.
  - exists 0. simpl. repeat split; auto.
  - simpl. go_simpl.
    destruct (blades.Run runner ctx prompt opts (env i w)) as [[og oe] w1].
    go_simpl. destruct oe as [err|].
    { exists 1. cbn [fst snd]. split; [simpl; lia|]. split; [reflexivity|].
      intros v Hv Hnone. injection Hv as <-. discriminate Hnone. }
    destruct og as [g|].
    2:{ exists 1. cbn [fst snd]. split; [simpl; lia|]. split; [reflexivity|].
        intros v Hv. discriminate Hv. }
    destruct (IH (S i) ctx (NewPrompt (Messages g)) opts (Some g) w1)
      as (n & Hn & Hinv & Hall).
    destruct (flow.runSilentFrom env (S i) rest ctx (NewPrompt (Messages g))
                opts (Some g) w1) as [[rq wq] tq].
    cbn [fst snd] in *. exists (S n).
    split; [simpl; lia|]. split.
    + unfold invoked in *. cbn [calls app map callIndex seq].
      rewrite Hinv. reflexivity.
    + intros v Hv Hnone. simpl. f_equal. exact (Hall v Hv Hnone).
Qed.

(** X3. Runners are invoked in order, without gaps or repeats. In every
    execution, blocking (verbose or silent) or streaming, the positions of
    the runners invoked are [0, 1, ..., n-1] for some [n] that is at most
    the number of runners; and when blocking [Run] returns with a nil error,
    or the stream ends without an error, every runner was invoked. *)
Theorem runners_invoked_in_order (c : Chain) ctx prompt opts w :
  (exists n,
     n <= List.length (flow.runners c) /\
     invoked (snd (flow.Run env c ctx prompt opts w)) = seq 0 n /\
     (forall v,
        fst (fst (flow.Run env c ctx prompt opts w)) = Val v ->
        snd v = None -> n = List.length (flow.runners c))) /\
  (exists n,
     n <= List.length (flow.runners c) /\
     invoked (snd (flow.streamed env c ctx prompt opts w)) = seq 0 n /\
     (fst (fst (flow.streamed env c ctx prompt opts w)) = Val None ->
      n = List.length (flow.runners c))).
Proof.
  destruct (runSilentFrom_invoked (flow.runners c) 0 ctx prompt opts None w)
    as (n & Hn & Hinv & Hall).
  fold (flow.runSilent env c ctx prompt opts w) in Hinv, Hall.
  split.
  - unfold flow.Run. destruct (flow.verbose c) eqn:Hv; cbn [negb].
    + destruct (flow.runners c) as [|r0 rs0] eqn:Hrs.
      * exists 0. split; [lia|].
        unfold flow.runVerbose. rewrite Hrs. simpl. go_simpl.
        split; [reflexivity|]. intros v Hpanic. discriminate Hpanic.
      * assert (Hne : flow.runners c <> []) by (rewrite Hrs; discriminate).
        destruct (runVerbose_silent c ctx prompt opts w Hne) as [Hfst Hcalls].
        exists n. split; [exact Hn|]. split.
        -- unfold invoked in *. rewrite Hcalls. exact Hinv.
        -- intros v Hval. apply Hall. rewrite <- Hfst. exact Hval.
    + exists n. split; [exact Hn|]. split; [exact Hinv | exact Hall].
  - exists n.
    pose proof (produceFrom_silent (flow.runners c) 0 ctx prompt opts None w)
      as H.
    rewrite (streamed_produce env).
    unfold flow.runSilent in Hinv, Hall.
    destruct (flow.produceFrom env 0 (flow.runners c) ctx prompt opts w)
      as [[rp wp] tp].
    destruct (flow.runSilentFrom env 0 (flow.runners c) ctx prompt opts None w)
      as [[rq wq] tq].
    destruct H as (_ & Hc & Hr & _). cbn [fst snd] in *.
    split; [exact Hn|]. split.
    + unfold invoked in *. rewrite Hc. exact Hinv.
    + intro Hval. subst rp. destruct rq as [v|]; [|discriminate].
      injection Hval as Hnone. exact (Hall v eq_refl Hnone).
Qed.

Lemma progressBars_app (o1 o2 : list (Output E)) :
  flow.progressBars (o1 ++ o2) = flow.progressBars o1 ++ flow.progressBars o2.
Proof.
  induction o1 as [|o o1 IH]; simpl; [reflexivity|].
  destruct o; simpl; rewrite IH; reflexivity.
Qed.

Lemma separators_app (o1 o2 : list (Output E)) :
  flow.separators (o1 ++ o2) = flow.separators o1 + flow.separators o2.
Proof.
  induction o1 as [|o o1 IH]; simpl; [reflexivity|].
  destruct o; simpl; rewrite IH; reflexivity.
Qed.

(** The progress bars and the separators of the verbose loop. *)
Lemma runVerboseFrom_prints (rs : list Runner) :
  forall total i ctx prompt opts fr w,
    flow.progressBars
      (printed (snd (flow.runVerboseFrom env total i rs ctx prompt opts fr w)))
    = map (fun j => (j + 1, total))
          (invoked (snd (flow.runVerboseFrom env total i rs ctx prompt opts
                           fr w))) /\
    (i + List.length rs <= total ->
     Forall (fun bar => 1 <= fst bar /\ fst bar <= snd bar)
       (flow.progressBars
          (printed (snd (flow.runVerboseFrom env total i rs ctx prompt opts
                           fr w))))) /\
    (total = i + List.length rs ->
     forall f,
       fst (fst (flow.runVerboseFrom env total i rs ctx prompt opts fr w))
         = Val (inr f) ->
       flow.separators
         (printed (snd (flow.runVerboseFrom env total i rs ctx prompt opts
                          fr w)))
       = List.length rs - 1).
Proof.
  induction rs as [|runner rest IH]; intros total i ctx prompt opts fr w.
  - simpl. split; [reflexivity|]. split; [constructor|].
    intros _ f _. reflexivity.
  - simpl. go_simpl.
    destruct (flow.getStepInfo runner (i + 1)) as [name ins]. go_simpl.
    destruct (blades.Run runner ctx prompt opts (env i w)) as [[og oe] w1].
    go_simpl.
    assert (Hbar : i + S (List.length rest) <= total ->
                   1 <= fst (i + 1, total) /\ fst (i + 1, total) <= snd (i + 1, total))
      by (cbn [fst snd]; lia).
    destruct oe as [err|].
    { go_simpl. cbn [fst snd]. split; [reflexivity|]. split.
      - intro Hle. cbn [printed app flow.progressBars].
        constructor; [exact (Hbar Hle) | constructor].
      - intros _ f Hf. discriminate Hf. }
    destruct og as [g|].
    2:{ cbn [fst snd]. split; [reflexivity|]. split.
        - intro Hle. cbn [printed app flow.progressBars].
          constructor; [exact (Hbar Hle) | constructor].
        - intros _ f Hf. discriminate Hf. }
    destruct (IH total (S i) ctx (NewPrompt (Messages g)) opts (Some g) w1)
      as (Hbars & Hall & Hseps).
    destruct (Nat.ltb_spec i (total - 1)) as [Hlt|Hge]; go_simpl;
      destruct (flow.runVerboseFrom env total (S i) rest ctx
                  (NewPrompt (Messages g)) opts (Some g) w1)
        as [[rv wv] tv];
      cbn [fst snd] in *;
      (split;
       [ unfold invoked in *;
         cbn [printed calls app flow.progressBars map callIndex];
         rewrite Hbars; reflexivity |]);
      (split;
       [ intro Hle; cbn [printed app flow.progressBars];
         constructor; [exact (Hbar Hle) | apply Hall; lia] |]);
      intros Htotal f Hf;
      cbn [printed app flow.separators];
      (rewrite (Hseps ltac:(lia) f Hf));
      destruct rest; simpl in *; lia.
Qed.

(** X4. What the verbose run prints is well formed. The progress bars of
    [runVerbose] are, in order, the bars [(k, N)] of the runners it
    invokes, [k] counting from 1 and [N] being the number of runners, so
    that no bar shows more steps done than there are; and a run that
    returns with a nil error has printed one separator between each two
    consecutive steps, [N-1] in all. *)
Theorem runVerbose_prints_well_formed (c : Chain) ctx prompt opts w :
  flow.progressBars
    (printed (snd (flow.runVerbose env c ctx prompt opts w)))
  = map (fun j => (j + 1, List.length (flow.runners c)))
        (invoked (snd (flow.runVerbose env c ctx prompt opts w))) /\
  Forall (fun bar => 1 <= fst bar /\ fst bar <= snd bar)
    (flow.progressBars
       (printed (snd (flow.runVerbose env c ctx prompt opts w)))) /\
  (forall v,
     fst (fst (flow.runVerbose env c ctx prompt opts w)) = Val v ->
     snd v = None ->
     flow.separators
       (printed (snd (flow.runVerbose env c ctx prompt opts w)))
     = List.length (flow.runners c) - 1).
Proof.
  unfold flow.runVerbose. go_simpl.
  destruct (runVerboseFrom_prints (flow.runners c)
              (List.length (flow.runners c)) 0 ctx prompt opts None w)
    as (Hb & Hall & Hs).
  specialize (Hall (Nat.le_refl _)). specialize (Hs eq_refl).
  pose proof (runVerboseFrom_val env (flow.runners c)
                (List.length (flow.runners c)) 0 ctx prompt opts None w)
    as Hval.
  destruct (flow.runVerboseFrom env (List.length (flow.runners c)) 0
              (flow.runners c) ctx prompt opts None w)
    as [[[l|] w1] t1]; cbn [fst snd] in *.
  - destruct l as [v|[g|]]; go_simpl; cbn [fst snd];
      unfold invoked in *;
      rewrite ?printed_app, ?calls_app;
      cbn [printed calls app flow.progressBars flow.separators map];
      rewrite ?app_nil_r.
    + split; [exact Hb|]. split; [exact Hall|].
      intros v0 Hv0 Hnone. injection Hv0 as <-.
      destruct (Hval (inl v) w1 t1 eq_refl) as [[err Herr] | (gs & p' & Hl & _)];
        [|discriminate Hl].
      injection Herr as ->. discriminate Hnone.
    + rewrite progressBars_app, separators_app.
      cbn [flow.progressBars flow.separators]. rewrite app_nil_r, Nat.add_0_r.
      split; [exact Hb|]. split; [exact Hall|].
      intros v0 _ _. exact (Hs (Some g) eq_refl).
    + split; [exact Hb|]. split; [exact Hall|].
      intros v0 Hv0. discriminate Hv0.
  - cbn [printed calls app flow.progressBars flow.separators map].
    split; [exact Hb|]. split; [exact Hall|].
    intros v0 Hv0. discriminate Hv0.
Qed.

(** ** A chain in two parts *)

Lemma runSilentFrom_shift (k : nat) (rs : list Runner) :
  forall i ctx prompt opts last0 w,
    fst (flow.runSilentFrom (flow.shift k env) i rs ctx prompt opts last0 w)
    = fst (flow.runSilentFrom env (k + i) rs ctx prompt opts last0 w).
Proof.
  induction rs as [|runner rest IH]; intros i ctx prompt opts last0 w.
  - reflexivity.
  - simpl. go_simpl. unfold flow.shift at 1 2.
    destruct (blades.Run runner ctx prompt opts (env (k + i) w))
      as [[og oe] w1].
    go_simpl. destruct oe as [err|]; [reflexivity|].
    destruct og as [g|]; [|reflexivity].
    specialize (IH (S i) ctx (NewPrompt (Messages g)) opts (Some g) w1).
    rewrite Nat.add_succ_r in IH.
    destruct (flow.runSilentFrom (flow.shift k env) (S i) rest ctx
                (NewPrompt (Messages g)) opts (Some g) w1) as [[r1 v1] t1].
    destruct (flow.runSilentFrom env (S (k + i)) rest ctx
                (NewPrompt (Messages g)) opts (Some g) w1) as [[r2 v2] t2].
    cbn [fst] in *. exact IH.
Qed.

Lemma runSilentFrom_last_irrelevant (rs : list Runner) i ctx prompt opts l1 l2 w :
  rs <> [] ->
  flow.runSilentFrom env i rs ctx prompt opts l1 w
  = flow.runSilentFrom env i rs ctx prompt opts l2 w.
Proof.
  destruct rs as [|runner rest]; [contradiction|]. intros _. reflexivity.
Qed.

Lemma last_nonempty_default {A : Type} (l : list A) (d1 d2 : A) :
  l <> [] -> last l d1 = last l d2.
Proof.
  induction l as [|a l IH]; [contradiction|]. intros _.
  destruct l as [|b l]; [reflexivity|].
  change (last (b :: l) d1 = last (b :: l) d2). apply IH. discriminate.
Qed.

Lemma completes_prompt (rs : list Runner) :
  forall i ctx prompt opts w gs p' w',
    flow.completes env i rs ctx prompt opts w = Some (gs, p', w') ->
    (gs = [] /\ p' = prompt) \/
    (exists g,
       last (map Some gs) None = Some g /\ p' = NewPrompt (Messages g)).
Proof.
  induction rs as [|runner rest IH]; intros i ctx prompt opts w gs p' w' H.
  - simpl in H. injection H as <- <- _. left. split; reflexivity.
  - apply (completes_cons_inv env) in H.
    destruct H as (g & w1 & gs' & _ & Hrest & ->).
    right. change (map Some (g :: gs')) with (Some g :: map Some gs').
    rewrite last_cons_default.
    destruct (IH _ _ _ _ _ _ _ _ Hrest) as [[-> ->] | (g' & Hlast & ->)].
    + exists g. split; reflexivity.
    + exists g'. split; [|reflexivity].
      rewrite <- Hlast. apply last_nonempty_default.
      destruct gs'; [discriminate Hlast | discriminate].
Qed.

(** X5. A chain runs as its two parts in sequence. When the silent run of
    the runners [rs1] returns a generation [g] and no error, the silent run
    of [rs1] followed by a non-empty [rs2] returns what the run of [rs2]
    returns on the prompt built from the messages of [g], started in the
    world the first run left, and leaves the world that run leaves. *)
Theorem chain_runs_as_two_parts
    (rs1 rs2 : list Runner) ctx prompt opts w g w1 t1 :
  rs2 <> [] ->
  flow.runSilent env (flow.NewChainSilent rs1) ctx prompt opts w
    = (Val (Some g, None), w1, t1) ->
  fst (flow.runSilent env (flow.NewChainSilent (rs1 ++ rs2)) ctx prompt opts w)
  = fst (flow.runSilent (flow.shift (List.length rs1) env)
           (flow.NewChainSilent rs2) ctx (NewPrompt (Messages g)) opts w1).
Proof.
  intros Hne Hrun. unfold flow.runSilent in *.
  cbn [flow.NewChainSilent flow.runners] in *.
  destruct (runSilentFrom_val env rs1 0 ctx prompt opts None w _ w1 t1 Hrun)
    as (gs & p' & Hc & Hlast).
  destruct (completes_prompt rs1 _ _ _ _ _ _ _ _ Hc)
    as [[-> _] | (g' & Hlast' & ->)]; [discriminate Hlast|].
  rewrite Hlast' in Hlast. injection Hlast as <-.
  destruct (runSilentFrom_prefix env rs1 0 ctx prompt opts None w _ _ _ Hc)
    as (t & _ & Hloop).
  rewrite Hloop, Hlast'. rewrite runSilentFrom_shift, Nat.add_0_r.
  cbn [Nat.add].
  rewrite (runSilentFrom_last_irrelevant rs2 (List.length rs1) ctx
             (NewPrompt (Messages g)) opts (Some g) None w1 Hne).
  destruct (flow.runSilentFrom env (List.length rs1) rs2 ctx
              (NewPrompt (Messages g)) opts None w1) as [[r w2] t2].
  reflexivity.
Qed.

(** X6. The labels of a step are never empty. Whatever the runner and the
    step number, the name and the instructions [getStepInfo] returns are
    not empty; and for a runner that is an agent, a name and instructions
    that are not empty are returned as they are. *)
Theorem getStepInfo_labels (runner : Runner) (stepNum : nat) :
  fst (flow.getStepInfo runner stepNum) <> "" /\
  snd (flow.getStepInfo runner stepNum) <> "" /\
  (forall agent,
     asAgent runner = Some agent ->
     (Name agent <> "" ->
      fst (flow.getStepInfo runner stepNum) = Name agent) /\
     (Instructions agent <> "" ->
      snd (flow.getStepInfo runner stepNum) = Instructions agent)).
Proof.
  unfold flow.getStepInfo.
  destruct (asAgent runner) as [agent|]; cbn [fst snd].
  - destruct (String.eqb_spec (Name agent) "") as [Hn|Hn];
      destruct (String.eqb_spec (Instructions agent) "") as [Hi|Hi];
      (split; [first [exact Hn | discriminate]|]);
      (split; [first [exact Hi | discriminate]|]);
      intros a Ha; injection Ha as <-; split; intro H;
      first [reflexivity | contradiction].
  - split; [discriminate|]. split; [discriminate|].
    intros a Ha. discriminate Ha.
Qed.

End ChainExtras.

(** * The executors of the examples *)

Section ExecutorFacts.

Context {W E Ctx Opt : Type}.
Variable env : nat -> W -> W.

Local Abbreviation Runner := (blades.Runner W E Ctx Opt).
Local Abbreviation Event := (exec.Event W E Ctx Opt).
Local Abbreviation Chain := (@flow.Chain W E Ctx Opt).
Local Abbreviation ChainStep := (@chain_executor.ChainStep W E Ctx Opt).
Local Abbreviation ChainExecutor := (@chain_executor.ChainExecutor W E Ctx Opt).
Local Abbreviation FlowExecutor := (@flow_executor.FlowExecutor W E Ctx Opt).

(** The loop of the executor against the silent loop of a chain made of
    the agents of the steps, run without options. *)
Lemma executeFrom_silent (ss : list ChainStep) :
  forall total i ctx prompt fr w,
    match chain_executor.executeFrom env total i ss ctx prompt fr w,
          flow.runSilentFrom env i (map chain_executor.Agent ss) ctx prompt
            [] fr w with
    | (rv, wv, tv), (rq, wq, tq) =>
        wv = wq /\ calls tv = calls tq /\
        match rv with
        | Val (inl v) => rq = Val v
        | Val (inr f) =>
            rq = Val (f, None) /\ (ss <> [] \/ fr <> None -> f <> None)
        | Panic => rq = Panic
        end
    end.
Proof.
  induction ss as [|step rest IH]; intros total i ctx prompt fr w.
  - simpl. go_simpl. repeat split. intros [H|H]; [contradiction | exact H].
  - simpl. go_simpl.
    destruct (blades.Run (chain_executor.Agent step) ctx prompt [] (env i w))
      as [[og oe] w1].
    go_simpl. destruct oe as [err|]; [go_simpl; repeat split|].
    destruct og as [g|]; [|repeat split].
    specialize (IH total (S i) ctx (NewPrompt (Messages g)) (Some g) w1).
    destruct (flow.runSilentFrom env (S i) (map chain_executor.Agent rest) ctx
                (NewPrompt (Messages g)) [] (Some g) w1) as [[rq wq] tq].
    destruct (Nat.ltb i (total - 1)); go_simpl;
      destruct (chain_executor.executeFrom env total (S i) rest ctx
                  (NewPrompt (Messages g)) (Some g) w1)
        as [[rv wv] tv];
      destruct IH as (Hw & Hc & Hr);
      (split; [exact Hw|]);
      (split; [cbn [calls app]; rewrite Hc; reflexivity|]);
      destruct rv as [[v|f]|]; try exact Hr;
      (destruct Hr as [Hr Hf]; split; [exact Hr|]);
      intros _; apply Hf; right; discriminate.
Qed.

Lemma Execute_silent (ce : ChainExecutor) ctx prompt w :
  chain_executor.steps ce <> [] ->
  fst (chain_executor.Execute env ce ctx prompt w)
    = fst (flow.runSilent env
             (flow.NewChainSilent
                (map chain_executor.Agent (chain_executor.steps ce)))
             ctx prompt [] w) /\
  calls (snd (chain_executor.Execute env ce ctx prompt w))
    = calls (snd (flow.runSilent env
                    (flow.NewChainSilent
                       (map chain_executor.Agent (chain_executor.steps ce)))
                    ctx prompt [] w)).
Proof.
  intro Hne. unfold chain_executor.Execute, flow.runSilent.
  cbn [flow.NewChainSilent flow.runners]. go_simpl.
  pose proof (executeFrom_silent (chain_executor.steps ce)
                (List.length (chain_executor.steps ce)) 0 ctx prompt None w)
    as H.
  destruct (flow.runSilentFrom env 0
              (map chain_executor.Agent (chain_executor.steps ce)) ctx prompt
              [] None w) as [[rq wq] tq].
  destruct (chain_executor.executeFrom env
              (List.length (chain_executor.steps ce)) 0
              (chain_executor.steps ce) ctx prompt None w) as [[rv wv] tv].
  destruct H as (Hw & Hc & Hr). subst wq.
  destruct rv as [[v|f]|]; go_simpl.
  - subst rq. cbn [fst snd]. rewrite !calls_app. cbn [calls app].
    rewrite app_nil_r. split; [reflexivity | exact Hc].
  - destruct Hr as [-> Hf].
    destruct f as [g|]; [|exfalso; apply Hf; [left; exact Hne | reflexivity]].
    go_simpl. cbn [fst snd]. rewrite !calls_app. cbn [calls app].
    rewrite app_nil_r. split; [reflexivity | exact Hc].
  - subst rq. cbn [fst snd calls app]. split; [reflexivity | exact Hc].
Qed.

(** The executor a program builds: one [AddStep] per step, in order. *)
Lemma AddStep_fold (ss : list ChainStep) :
  forall ce : ChainExecutor,
    chain_executor.steps
      (fold_left
         (fun ce step =>
            chain_executor.AddStep ce (chain_executor.Name step)
              (chain_executor.Instructions step) (chain_executor.Agent step))
         ss ce)
    = chain_executor.steps ce ++ ss.
Proof.
  induction ss as [|step rest IH]; intro ce; simpl.
  - symmetry. apply app_nil_r.
  - rewrite IH. cbn [chain_executor.AddStep chain_executor.steps].
    rewrite <- app_assoc. destruct step. reflexivity.
Qed.

(** X7. [ChainExecutor.Execute] is a silent chain with prints. For an
    executor built from [NewChainExecutor] by one [AddStep] per step of a
    non-empty list, [Execute] returns what the silent [Run] of the chain of
    the steps' agents, in the order they were added and with no options,
    returns (or panics alike), leaves the same world and makes the same
    calls. *)
Theorem ChainExecutor_runs_agents_in_order
    (ss : list ChainStep) ctx prompt w :
  ss <> [] ->
  fst (chain_executor.Execute env
         (fold_left
            (fun ce step =>
               chain_executor.AddStep ce (chain_executor.Name step)
                 (chain_executor.Instructions step)
                 (chain_executor.Agent step))
            ss chain_executor.NewChainExecutor)
         ctx prompt w)
    = fst (flow.runSilent env
             (flow.NewChainSilent (map chain_executor.Agent ss))
             ctx prompt [] w) /\
  calls (snd (chain_executor.Execute env
                (fold_left
                   (fun ce step =>
                      chain_executor.AddStep ce (chain_executor.Name step)
                        (chain_executor.Instructions step)
                        (chain_executor.Agent step))
                   ss chain_executor.NewChainExecutor)
                ctx prompt w))
    = calls (snd (flow.runSilent env
                    (flow.NewChainSilent (map chain_executor.Agent ss))
                    ctx prompt [] w)).
Proof.
  intro Hne.
  pose proof (AddStep_fold ss chain_executor.NewChainExecutor) as Hsteps.
  cbn [chain_executor.NewChainExecutor chain_executor.steps app] in Hsteps.
  pose proof (Execute_silent
                (fold_left
                   (fun ce step =>
                      chain_executor.AddStep ce (chain_executor.Name step)
                        (chain_executor.Instructions step)
                        (chain_executor.Agent step))
                   ss chain_executor.NewChainExecutor) ctx prompt w) as H.
  rewrite Hsteps in H. exact (H Hne).
Qed.

Lemma visualizeFrom_executeFrom (ss : list ChainStep) :
  forall total i ctx prompt fr w,
    flow_executor.visualizeFrom env total i ss ctx prompt fr w
    = chain_executor.executeFrom env total i ss ctx prompt fr w.
Proof.
  induction ss as [|step rest IH]; intros total i ctx prompt fr w.
  - reflexivity.
  - simpl. go_simpl.
    destruct (blades.Run (chain_executor.Agent step) ctx prompt [] (env i w))
      as [[og oe] w1].
    go_simpl. destruct oe as [err|]; [reflexivity|].
    destruct og as [g|]; [|reflexivity].
    destruct (Nat.ltb i (total - 1)); go_simpl; rewrite IH; reflexivity.
Qed.

Lemma ExecuteWithVisualization_Execute (fe : FlowExecutor) ctx prompt w :
  flow_executor.ExecuteWithVisualization env fe ctx prompt w
  = chain_executor.Execute env
      {| chain_executor.steps := flow_executor.steps fe |} ctx prompt w.
Proof.
  unfold flow_executor.ExecuteWithVisualization, chain_executor.Execute.
  cbn [chain_executor.steps]. go_simpl.
  rewrite visualizeFrom_executeFrom. reflexivity.
Qed.

(** X8. The two ways to run a [FlowExecutor] agree when its steps mirror
    its chain. If the runners of the chain are the agents of the steps, in
    order, and there is at least one, [ExecuteWithVisualization] and
    [Execute] return the same pair or panic alike, leave the same world and
    make the same calls, whether the chain is verbose or not. *)
Theorem FlowExecutor_modes_agree (fe : FlowExecutor) ctx prompt w :
  flow.runners (flow_executor.chain fe)
    = map chain_executor.Agent (flow_executor.steps fe) ->
  flow_executor.steps fe <> [] ->
  fst (flow_executor.ExecuteWithVisualization env fe ctx prompt w)
    = fst (flow_executor.Execute env fe ctx prompt w) /\
  calls (snd (flow_executor.ExecuteWithVisualization env fe ctx prompt w))
    = calls (snd (flow_executor.Execute env fe ctx prompt w)).
Proof.
  intros Hmirror Hne.
  rewrite ExecuteWithVisualization_Execute.
  destruct (Execute_silent {| chain_executor.steps := flow_executor.steps fe |}
              ctx prompt w Hne) as [Hfst Hcalls].
  cbn [chain_executor.steps] in Hfst, Hcalls.
  assert (Hsilent :
    flow.runSilent env
      (flow.NewChainSilent (map chain_executor.Agent (flow_executor.steps fe)))
      ctx prompt [] w
    = flow.runSilent env (flow_executor.chain fe) ctx prompt [] w).
  { unfold flow.runSilent. cbn [flow.NewChainSilent flow.runners].
    rewrite Hmirror. reflexivity. }
  rewrite Hsilent in Hfst, Hcalls.
  unfold flow_executor.Execute, flow.Run.
  destruct (flow.verbose (flow_executor.chain fe)); cbn [negb].
  - assert (Hne' : flow.runners (flow_executor.chain fe) <> []).
    { rewrite Hmirror. destruct (flow_executor.steps fe);
        [contradiction | discriminate]. }
    destruct (runVerbose_silent env (flow_executor.chain fe) ctx prompt [] w
                Hne') as [Hfst' Hcalls'].
    rewrite Hfst', Hcalls'. split; assumption.
  - split; assumption.
Qed.

(** X9. An executor without steps panics. [Execute] of the executor
    [NewChainExecutor] returns, and [ExecuteWithVisualization] of a
    [FlowExecutor] with no steps, whatever its chain, print the header and
    the initial prompt and then panic on the nil final result, having
    invoked no runner. *)
Theorem executors_without_steps_panic
    (chain : Chain) (ctx : Ctx) prompt (w : W) :
  chain_executor.Execute env (@chain_executor.NewChainExecutor W E Ctx Opt)
    ctx prompt w
    = (Panic, w,
       [EvPrint (PrintHeader 0); EvPrint (PrintInitialPrompt prompt)]) /\
  flow_executor.ExecuteWithVisualization env
    (flow_executor.NewFlowExecutor chain []) ctx prompt w
    = (Panic, w,
       [EvPrint (PrintHeader 0); EvPrint (PrintInitialPrompt prompt)]).
Proof. split; reflexivity. Qed.

End ExecutorFacts.

(** * Further properties of the Zeus adapter *)

Section ZeusExtras.

Import zeus.

Context {W Ctx Opt : Type}.
Variable makeRequest :
  ChatProvider -> Ctx -> ZeusRequest -> W -> (string + ZeusResponse) * W.

Lemma inClosedSet_sentRole (m : Message) : inClosedSet (sentRole m) = true.
Proof.
  unfold sentRole. destruct (inClosedSet (Role m)) eqn:H; [exact H | reflexivity].
Qed.

(** X10. A Zeus answer fed back to Zeus. When the response has a first
    choice, [convertFromZeusResponse] returns a response and no error, and
    the request built from the messages of that response carries the
    content of the first choice as one message of role "assistant", or no
    message at all when that content is empty. *)
Theorem zeus_answer_fed_back
    (p : ChatProvider) (resp : ZeusResponse) (choice : ZeusChoice)
    (model : string) :
  hd_error (Choices resp) = Some choice ->
  exists r,
    convertFromZeusResponse p resp = (Some r, None) /\
    messages (convertToZeusRequest p
                {| Model := model; RequestMessages := ResponseMessages r |})
    = if String.eqb (Content (ChoiceMessage choice)) ""
      then []
      else [{| role := "assistant";
               content := Content (ChoiceMessage choice) |}].
Proof.
  intro Hhd. unfold convertFromZeusResponse.
  destruct (Choices resp) as [|c cs]; [discriminate Hhd|].
  injection Hhd as ->.
  eexists. split; [reflexivity|].
  rewrite convertToZeusRequest_messages.
  cbn [RequestMessages ResponseMessages filter].
  assert (Htext :
    textContent {| Role := RoleAssistant; Status := StatusCompleted;
                   Parts := [TextPart (Content (ChoiceMessage choice))] |}
    = Content (ChoiceMessage choice))
    by (unfold textContent; cbn [Parts map partText fold_right];
        apply append_nil_r).
  unfold hasText. rewrite Htext.
  destruct (String.eqb (Content (ChoiceMessage choice)) ""); cbn [negb map].
  - reflexivity.
  - rewrite Htext. reflexivity.
Qed.

(** X11. What every request to Zeus satisfies. The request carries the
    pipeline id of the provider; it has at most as many messages as the
    input; and every role in it is one of system, user and assistant. *)
Theorem zeus_request_invariants (p : ChatProvider) (req : ModelRequest) :
  pipeline_id (convertToZeusRequest p req) = pipelineID p /\
  List.length (messages (convertToZeusRequest p req))
    <= List.length (RequestMessages req) /\
  Forall (fun z => inClosedSet (role z) = true)
    (messages (convertToZeusRequest p req)).
Proof.
  split; [reflexivity|].
  rewrite convertToZeusRequest_messages. split.
  - rewrite length_map. apply filter_length_le.
  - apply Forall_map, Forall_forall. intros m _. cbn [role].
    apply inClosedSet_sentRole.
Qed.

(** X12. Messages are converted one by one. The messages of the request
    for a conversation in two parts are the messages of the request for
    the first part followed by those for the second, whatever the model
    names of the three requests. *)
Theorem zeus_request_of_two_parts
    (p : ChatProvider) (m m1 m2 : string) (msgs1 msgs2 : list Message) :
  messages (convertToZeusRequest p
              {| Model := m; RequestMessages := msgs1 ++ msgs2 |})
  = messages (convertToZeusRequest p
                {| Model := m1; RequestMessages := msgs1 |})
    ++ messages (convertToZeusRequest p
                   {| Model := m2; RequestMessages := msgs2 |}).
Proof.
  rewrite !convertToZeusRequest_messages. cbn [RequestMessages].
  rewrite filter_app, map_app. reflexivity.
Qed.

(** [Generate] returns one of a response and an error. *)
Lemma Generate_returns_response_or_error_aux
    (p : ChatProvider) (ctx : Ctx) (req : ModelRequest) (opts : list Opt)
    (w : W) :
  (exists r, fst (Generate makeRequest p ctx req opts w) = (Some r, None)) \/
  (exists err,
     fst (Generate makeRequest p ctx req opts w) = (None, Some err)).
Proof.
  unfold Generate.
  destruct (makeRequest p ctx (convertToZeusRequest p req) w)
    as [[err|resp] w1]; cbn [fst].
  - right. exists err. reflexivity.
  - unfold convertFromZeusResponse.
    destruct (Choices resp) as [|choice cs].
    + right. eexists. reflexivity.
    + left. eexists. reflexivity.
Qed.

(** X13. [Generate] returns a response or an error, never both and never
    neither; a response has exactly one message, of role assistant, of
    status completed, made of one text part. *)
Theorem Generate_returns_response_or_error
    (p : ChatProvider) (ctx : Ctx) (req : ModelRequest) (opts : list Opt)
    (w : W) :
  (exists content,
     fst (Generate makeRequest p ctx req opts w)
     = (Some {| ResponseMessages :=
                  [{| Role := RoleAssistant; Status := StatusCompleted;
                      Parts := [TextPart content] |}] |},
        None)) \/
  (exists err,
     fst (Generate makeRequest p ctx req opts w) = (None, Some err)).
Proof.
  unfold Generate.
  destruct (makeRequest p ctx (convertToZeusRequest p req) w)
    as [[err|resp] w1]; cbn [fst].
  - right. exists err. reflexivity.
  - unfold convertFromZeusResponse.
    destruct (Choices resp) as [|choice cs].
    + right. eexists. reflexivity.
    + left. eexists. reflexivity.
Qed.

(** X14. Zeus sees roles and text only. Two requests whose messages with
    text carry, in order, the same roles as sent and the same text get the
    same result from [Generate] in the same world, whatever their model
    names, their options, their messages without text, the parts that are
    not text and the roles outside the closed set. *)
Theorem Generate_depends_on_roles_and_text
    (p : ChatProvider) (ctx : Ctx) (req req' : ModelRequest)
    (opts opts' : list Opt) (w : W) :
  map (fun m => (sentRole m, textContent m))
      (filter hasText (RequestMessages req))
  = map (fun m => (sentRole m, textContent m))
        (filter hasText (RequestMessages req')) ->
  Generate makeRequest p ctx req opts w
  = Generate makeRequest p ctx req' opts' w.
Proof.
  intro Hsame. unfold Generate.
  assert (Hreq : convertToZeusRequest p req = convertToZeusRequest p req').
  { pose proof (convertToZeusRequest_messages p req) as H1.
    pose proof (convertToZeusRequest_messages p req') as H2.
    destruct (convertToZeusRequest p req) as [ms1 id1] eqn:E1.
    destruct (convertToZeusRequest p req') as [ms2 id2] eqn:E2.
    cbn [messages] in H1, H2.
    assert (id1 = pipelineID p)
      by (change id1 with (pipeline_id {| messages := ms1; pipeline_id := id1 |});
          rewrite <- E1; reflexivity).
    assert (id2 = pipelineID p)
      by (change id2 with (pipeline_id {| messages := ms2; pipeline_id := id2 |});
          rewrite <- E2; reflexivity).
    subst id1 id2 ms1 ms2. f_equal.
    assert (Hpairs : forall l : list Message,
      map (fun m => {| role := sentRole m; content := textContent m |}) l
      = map (fun rc => {| role := fst rc; content := snd rc |})
            (map (fun m => (sentRole m, textContent m)) l))
      by (intro l; rewrite map_map; reflexivity).
    rewrite !Hpairs, Hsame. reflexivity. }
  rewrite Hreq. reflexivity.
Qed.

(** X15. The Zeus stream carries what [Generate] returns. [NewStream]
    returns a handle and a nil error; the task of the handle leaves the
    world [Generate] leaves, and either ends without an error after
    delivering exactly one value, the response of [Generate], or ends with
    the error of [Generate] after delivering nothing. *)
Theorem NewStream_delivers_Generate
    (p : ChatProvider) (ctx : Ctx) (req : ModelRequest) (opts : list Opt) :
  exists pipe task,
    NewStream makeRequest p ctx req opts = (Some pipe, None) /\
    responseTask pipe = Some task /\
    forall w,
      snd (fst (task w)) = snd (Generate makeRequest p ctx req opts w) /\
      ((exists r,
          fst (Generate makeRequest p ctx req opts w) = (Some r, None) /\
          fst (fst (task w)) = None /\ snd (task w) = [Some r]) \/
       (exists err,
          fst (Generate makeRequest p ctx req opts w) = (None, Some err) /\
          fst (fst (task w)) = Some err /\ snd (task w) = [])).
Proof.
  eexists. eexists. split; [reflexivity|]. split; [reflexivity|].
  intro w.
  destruct (Generate_returns_response_or_error_aux p ctx req opts w)
    as [[r Hr] | [err Herr]].
  - destruct (Generate makeRequest p ctx req opts w) as [[og oe] w1].
    cbn [fst snd] in *. injection Hr as -> ->. cbn [fst snd].
    split; [reflexivity|]. left. exists r. repeat split.
  - destruct (Generate makeRequest p ctx req opts w) as [[og oe] w1].
    cbn [fst snd] in *. injection Herr as -> ->. cbn [fst snd].
    split; [reflexivity|]. right. exists err. repeat split.
Qed.

End ZeusExtras.

(** X16. A Zeus provider is only built with a key and a pipeline. When
    [NewChatProvider] returns, the provider holds the non-empty values of
    ZEUS_API_KEY and ZEUS_PIPELINE_ID, and a base URL that is not empty:
    the value of ZEUS_BASE_URL when set, the default otherwise. When it
    panics, one of the two required variables is empty or unset. *)
Theorem NewChatProvider_requires_key_and_pipeline (getenv : string -> string) :
  match zeus.NewChatProvider getenv with
  | inr p =>
      zeus.apiKey p = getenv "ZEUS_API_KEY" /\ zeus.apiKey p <> "" /\
      zeus.pipelineID p = getenv "ZEUS_PIPELINE_ID" /\
      zeus.pipelineID p <> "" /\
      zeus.baseURL p <> "" /\
      zeus.baseURL p
      = (if String.eqb (getenv "ZEUS_BASE_URL") ""
         then "https://api.zeusllm.com/v1"
         else getenv "ZEUS_BASE_URL")
  | inl _ =>
      getenv "ZEUS_API_KEY" = "" \/ getenv "ZEUS_PIPELINE_ID" = ""
  end.
Proof.
  unfold zeus.NewChatProvider.
  destruct (String.eqb_spec (getenv "ZEUS_API_KEY") "") as [Hk|Hk];
    [left; exact Hk|].
  destruct (String.eqb_spec (getenv "ZEUS_PIPELINE_ID") "") as [Hp|Hp];
    [right; exact Hp|].
  cbn [zeus.apiKey zeus.pipelineID zeus.baseURL].
  repeat (split; [first [reflexivity | assumption]|]).
  split; [|reflexivity].
  destruct (String.eqb_spec (getenv "ZEUS_BASE_URL") "") as [Hb|Hb];
    [discriminate | exact Hb].
Qed.

(** * The loader of .env files *)

Section EnvFileFacts.

Import envfile.

Context {E : Type}.
Variable TrimSpace : string -> string.
Variable openFile : string -> E + (list string * option E).

Lemma loadConfig_lines (e : Env) :
  loadConfig TrimSpace openFile e
  = fold_left (setLine TrimSpace)
      (linesOf openFile ".env" ++ linesOf openFile "chain/.env") e.
Proof.
  unfold loadConfig, loadEnvFile, linesOf.
  destruct (openFile ".env") as [err1|[lines1 scan1]];
    destruct (openFile "chain/.env") as [err2|[lines2 scan2]];
    cbn [snd app]; rewrite ?fold_left_app, ?app_nil_r; reflexivity.
Qed.

Lemma cut_first (key value : string) :
  contains "=" key = false ->
  cut (append key (String "=" value)) = Some (key, value).
Proof.
  induction key as [|c key IH]; intro H; [reflexivity|].
  cbn [contains] in H. apply orb_false_iff in H. destruct H as [Hc Hkey].
  cbn [append cut]. rewrite Hc, (IH Hkey). reflexivity.
Qed.

Lemma cut_none (s : string) :
  contains "=" s = false -> cut s = None.
Proof.
  induction s as [|c s IH]; intro H; [reflexivity|].
  cbn [contains] in H. apply orb_false_iff in H. destruct H as [Hc Hs].
  cbn [cut]. rewrite Hc, (IH Hs). reflexivity.
Qed.

Lemma setLine_plain (e : Env) (key value : string) :
  plain TrimSpace key value ->
  setLine TrimSpace e (append key (append "=" value))
  = fun k => if String.eqb k key then Some value else e k.
Proof.
  intros (Hline & Hkey & Hvalue & Hne & Hhash & Heq & Hnul & Hnulv).
  unfold setLine. rewrite Hline.
  destruct key as [|c key']; [contradiction|].
  assert (Hguard :
    String.eqb (append (String c key') (append "=" value)) ""
    || prefix "#" (append (String c key') (append "=" value)) = false).
  { cbn [append String.eqb orb]. cbn [prefix] in Hhash |- *.
    destruct (ascii_dec "#" c); [|reflexivity].
    destruct (append key' (append "=" value)); exact Hhash || (destruct key'; exact Hhash). }
  rewrite Hguard. unfold SplitN2.
  change (append "=" value) with (String "=" value).
  rewrite (cut_first _ _ Heq).
  rewrite Hkey, Hvalue. unfold Setenv.
  rewrite Heq, Hnul, Hnulv. reflexivity.
Qed.

(** X17. [loadConfig] reads ".env", then "chain/.env", and drops every
    error. The environment it leaves is the one obtained by applying, line
    after line, the lines of ".env" followed by those of "chain/.env", a
    file that cannot be opened counting for no line and an error of the
    scanner changing nothing to the lines already read. *)
Theorem loadConfig_applies_both_files_in_order (e : Env) :
  loadConfig TrimSpace openFile e
  = fold_left (setLine TrimSpace)
      (linesOf openFile ".env" ++ linesOf openFile "chain/.env") e.
Proof. apply loadConfig_lines. Qed.

(** X18. The last assignment of "chain/.env" decides. When the last line
    of "chain/.env" is a plain assignment [key=value], the variable [key]
    has the value [value] after [loadConfig], whatever the environment
    before, the lines before it and the file ".env" say; the value is all
    that follows the first "=", further "=" signs included. *)
Theorem loadConfig_last_assignment_wins
    (e : Env) (before : list string) (key value : string) :
  linesOf openFile "chain/.env"
    = before ++ [append key (append "=" value)] ->
  plain TrimSpace key value ->
  Getenv (loadConfig TrimSpace openFile e) key = value.
Proof.
  intros Hlines Hplain.
  rewrite loadConfig_lines, Hlines, app_assoc, fold_left_app.
  cbn [fold_left]. rewrite (setLine_plain _ _ _ Hplain).
  unfold Getenv. rewrite String.eqb_refl. reflexivity.
Qed.

(** X19. A line touches one variable at most. For every line there is a
    key such that every other variable is, after the line, what it was
    before; a line that is blank, a comment or without "=" once trimmed
    changes nothing at all. *)
Theorem setLine_touches_one_variable (e : Env) (text : string) :
  (exists key, forall k, k <> key -> setLine TrimSpace e text k = e k) /\
  (String.eqb (TrimSpace text) "" || prefix "#" (TrimSpace text)
   || negb (contains "=" (TrimSpace text)) = true ->
   setLine TrimSpace e text = e).
Proof.
  split.
  - unfold setLine.
    destruct (String.eqb (TrimSpace text) "" || prefix "#" (TrimSpace text));
      [exists ""; reflexivity|].
    destruct (SplitN2 (TrimSpace text)) as [|k [|v [|x l]]];
      try (exists ""; reflexivity).
    exists (TrimSpace k). intros k' Hk'. unfold Setenv.
    destruct (String.eqb (TrimSpace k) "" || contains "=" (TrimSpace k)
              || contains "000" (TrimSpace k)
              || contains "000" (TrimSpace v)); [reflexivity|].
    apply String.eqb_neq in Hk'. rewrite Hk'. reflexivity.
  - intro H. unfold setLine.
    destruct (String.eqb (TrimSpace text) "" || prefix "#" (TrimSpace text));
      [reflexivity|].
    cbn [orb] in H. apply negb_true_iff in H.
    unfold SplitN2. rewrite (cut_none _ H). reflexivity.
Qed.

End EnvFileFacts.

(** * The Gemini adapter *)

Section GeminiFacts.

Import gemini.

Lemma sendOne (part : Part) (parts : list genaiPart) :
  match part with
  | TextPart Text => parts ++ [genaiText Text]
  | FilePart URI => parts ++ [genaiText (append "File: " URI)]
  | DataPart Bytes =>
      parts ++ [genaiText (append "Data: " (string_of_list_byte Bytes))]
  end
  = parts ++ [genaiText (sentAs part)].
Proof. destruct part; reflexivity. Qed.

Lemma convertParts_inner (ps : list Part) :
  forall acc,
    fold_left
      (fun parts part =>
         match part with
         | TextPart Text => parts ++ [genaiText Text]
         | FilePart URI => parts ++ [genaiText (append "File: " URI)]
         | DataPart Bytes =>
             parts ++ [genaiText (append "Data: " (string_of_list_byte Bytes))]
         end) ps acc
    = acc ++ map (fun part => genaiText (sentAs part)) ps.
Proof.
  induction ps as [|part ps IH]; intro acc; cbn [fold_left map].
  - symmetry. apply app_nil_r.
  - rewrite IH, sendOne, <- app_assoc. reflexivity.
Qed.

Lemma convertParts_outer (msgs : list Message) :
  forall acc,
    fold_left
      (fun parts msg =>
         fold_left
           (fun parts part =>
              match part with
              | TextPart Text => parts ++ [genaiText Text]
              | FilePart URI => parts ++ [genaiText (append "File: " URI)]
              | DataPart Bytes =>
                  parts
                  ++ [genaiText (append "Data: " (string_of_list_byte Bytes))]
              end) (Parts msg) parts) msgs acc
    = acc ++ map (fun part => genaiText (sentAs part))
               (List.concat (map Parts msgs)).
Proof.
  induction msgs as [|msg msgs IH]; intro acc; cbn [fold_left map List.concat].
  - symmetry. apply app_nil_r.
  - rewrite IH, convertParts_inner, map_app, <- app_assoc. reflexivity.
Qed.

(** X20. Gemini is sent every part, as text. The parts of the request
    are, in order, the parts of all the messages, each as one text part: a
    text as it is, a file as "File: " and its URI, data as "Data: " and its
    bytes. Nothing is left out, so there are as many parts as the messages
    have together, and neither the roles nor the boundaries of the messages
    are sent. *)
Theorem gemini_sends_every_part_as_text (msgs : list Message) :
  convertParts msgs
  = map (fun part => genaiText (sentAs part)) (List.concat (map Parts msgs)) /\
  List.length (convertParts msgs)
  = list_sum (map (fun m => List.length (Parts m)) msgs).
Proof.
  assert (H : convertParts msgs
              = map (fun part => genaiText (sentAs part))
                    (List.concat (map Parts msgs)))
    by apply (convertParts_outer msgs []).
  split; [exact H|].
  rewrite H, length_map, length_concat, map_map. reflexivity.
Qed.

Lemma sendParts_texts (parts : list genaiPart) :
  forall st,
    sendParts parts st
    = (append (fst st) (fold_right append "" (texts parts)),
       snd st ++ map chunk (texts parts)).
Proof.
  induction parts as [|part parts IH]; intros [full sent].
  - cbn. rewrite append_nil_r, app_nil_r. reflexivity.
  - unfold sendParts in *. cbn [fold_left]. rewrite IH.
    destruct part; cbn [fst snd texts fold_right map].
    + rewrite append_assoc, <- app_assoc. reflexivity.
    + reflexivity.
Qed.

Lemma fold_right_append_app (l1 l2 : list string) :
  fold_right append "" (l1 ++ l2)
  = append (fold_right append "" l1) (fold_right append "" l2).
Proof.
  induction l1 as [|t l1 IH]; cbn [fold_right app]; [reflexivity|].
  rewrite IH, append_assoc. reflexivity.
Qed.

Lemma produce_texts (resps : list GenerateContentResponse) (err : string) :
  forall st,
    produce resps err st
    = (if forallb readable resps then Val (Some err) else Panic,
       (append (fst st)
          (fold_right append ""
             (List.concat (map firstTexts (readablePrefix resps)))),
        snd st
        ++ map chunk (List.concat (map firstTexts (readablePrefix resps))))).
Proof.
  induction resps as [|resp resps IH]; intros [full sent].
  - cbn. rewrite append_nil_r, app_nil_r. reflexivity.
  - cbn [produce forallb readablePrefix].
    destruct (Candidates resp) as [|candidate cs] eqn:Hcs.
    + assert (Hr : readable resp = true)
        by (unfold readable; rewrite Hcs; reflexivity).
      assert (Hf : firstTexts resp = [])
        by (unfold firstTexts; rewrite Hcs; reflexivity).
      rewrite IH, Hr. cbn [andb fst snd map List.concat].
      rewrite Hf. reflexivity.
    + destruct (contentParts candidate) as [parts|] eqn:Hparts.
      * assert (Hr : readable resp = true)
          by (unfold readable; rewrite Hcs, Hparts; reflexivity).
        assert (Hf : firstTexts resp = texts parts)
          by (unfold firstTexts; rewrite Hcs, Hparts; reflexivity).
        rewrite IH, sendParts_texts, Hr. cbn [andb fst snd map List.concat].
        rewrite Hf.
        rewrite fold_right_append_app, map_app, append_assoc, app_assoc.
        reflexivity.
      * assert (Hr : readable resp = false)
          by (unfold readable; rewrite Hcs, Hparts; reflexivity).
        rewrite Hr. cbn [andb map List.concat fold_right fst snd].
        rewrite append_nil_r, app_nil_r. reflexivity.
Qed.

(** X21. What the Gemini stream delivers. On an iterator that yields
    [resps] and then fails with [err], the closure of [NewStream] ends with
    [err] when every response can be read, so that a stream always ends
    with an error, however well it went; and it panics at the first
    response whose first candidate is nil or has a nil content. Until
    then, the values it delivers are one incremental response, of status
    incomplete, per text part of the first candidate of each response, in
    order, the other candidates and the parts that are not text being
    ignored; and the texts delivered, put together, are the value the
    variable [fullText] holds. *)
Theorem gemini_stream_delivers_text_chunks
    (resps : list GenerateContentResponse) (err : string) :
  fst (produce resps err ("", []))
    = (if forallb readable resps then Val (Some err) else Panic) /\
  snd (snd (produce resps err ("", [])))
    = map chunk (List.concat (map firstTexts (readablePrefix resps))) /\
  fst (snd (produce resps err ("", [])))
    = fold_right append ""
        (List.concat (map firstTexts (readablePrefix resps))).
Proof.
  rewrite produce_texts. cbn [fst snd app append]. repeat split.
Qed.

Section GeminiProvider.

Context {W Ctx Opt : Type}.
Variable GenerateContent :
  string -> Ctx -> list genaiPart -> W
  -> (string + GenerateContentResponse) * W.

Lemma candidateText_texts (parts : list genaiPart) :
  forall acc,
    fold_left
      (fun responseText part =>
         match part with
         | genaiText text => append responseText text
         | genaiOther => responseText
         end) parts acc
    = append acc (fold_right append "" (texts parts)).
Proof.
  induction parts as [|part parts IH]; intro acc; cbn [fold_left texts].
  - symmetry. apply append_nil_r.
  - rewrite IH. destruct part; cbn [texts fold_right];
      [apply append_assoc | reflexivity].
Qed.

(** X22. [Generate] of the Gemini provider, on what the client returns.
    On an error of the client it returns that error and no response; on a
    response without candidate, [ErrEmptyResponse] and no response; on a
    response whose first candidate is nil or has a nil content it panics;
    otherwise it returns no error and a response of exactly one message,
    of role assistant and status completed, whose single text part is the
    text parts of the first candidate put together. When it returns, it
    returns a response or an error, never both and never neither. *)
Theorem gemini_Generate_result
    (ctx : Ctx) (req : ModelRequest) (opts : list Opt) (w : W) :
  match GenerateContent (Model req) ctx
          (map (fun part => genaiText (sentAs part))
               (List.concat (map Parts (RequestMessages req)))) w with
  | (inl err, w1) =>
      Generate GenerateContent ctx req opts w = (Val (None, Some err), w1)
  | (inr resp, w1) =>
      Generate GenerateContent ctx req opts w
      = (match Candidates resp with
         | [] => Val (None, Some ErrEmptyResponse)
         | _ :: _ =>
             if readable resp then
               Val (Some {| ResponseMessages :=
                              [{| Role := RoleAssistant;
                                  Status := StatusCompleted;
                                  Parts :=
                                    [TextPart (fold_right append ""
                                                 (firstTexts resp))] |}] |},
                    None)
             else Panic
         end, w1)
  end.
Proof.
  unfold Generate.
  assert (Hparts : convertParts (RequestMessages req)
                   = map (fun part => genaiText (sentAs part))
                         (List.concat (map Parts (RequestMessages req))))
    by apply (convertParts_outer (RequestMessages req) []).
  rewrite Hparts.
  destruct (GenerateContent (Model req) ctx
              (map (fun part => genaiText (sentAs part))
                   (List.concat (map Parts (RequestMessages req)))) w)
    as [[err|resp] w1]; [reflexivity|].
  unfold firstTexts, readable.
  destruct (Candidates resp) as [|candidate cs]; [reflexivity|].
  destruct (contentParts candidate) as [parts|]; [|reflexivity].
  unfold candidateText. rewrite candidateText_texts. reflexivity.
Qed.

End GeminiProvider.

End GeminiFacts.

(** * The further properties on inputs of the examples *)

Section ExtraWitnesses.

Import scenario harness.

Local Abbreviation Step := (blades.Runner unit string unit unit).

Lemma verbose_changes_only_the_prints_witness :
  fst (flow.Run alone (flow.SetVerbose (flow.NewChain [stepA : Step; stepB]) true)
         tt hello [] tt)
    = fst (flow.Run alone
             (flow.SetVerbose (flow.NewChain [stepA : Step; stepB]) false)
             tt hello [] tt) /\
  calls (snd (flow.Run alone
                (flow.SetVerbose (flow.NewChain [stepA : Step; stepB]) true)
                tt hello [] tt))
    = calls (snd (flow.Run alone
                    (flow.SetVerbose (flow.NewChain [stepA : Step; stepB])
                       false)
                    tt hello [] tt)).
Proof.
  apply (verbose_changes_only_the_prints alone
           (flow.NewChain [stepA : Step; stepB]) tt hello [] tt).
  discriminate.
Defined.

Lemma chain_runs_as_two_parts_witness :
  fst (flow.runSilent alone (flow.NewChainSilent ([stepA : Step] ++ [stepB]))
         tt hello [] tt)
  = fst (flow.runSilent (flow.shift (List.length [stepA : Step]) alone)
           (flow.NewChainSilent [stepB : Step]) tt
           (NewPrompt (Messages (reply "HELLO"))) [] tt).
Proof.
  eapply (chain_runs_as_two_parts alone [stepA : Step] [stepB] tt hello [] tt
            (reply "HELLO") tt).
  - discriminate.
  - reflexivity.
Defined.

Lemma ChainExecutor_runs_agents_in_order_witness :
  fst (chain_executor.Execute alone
         (fold_left
            (fun ce step =>
               chain_executor.AddStep ce (chain_executor.Name step)
                 (chain_executor.Instructions step)
                 (chain_executor.Agent step))
            (twoSteps (W:=unit)) chain_executor.NewChainExecutor)
         tt hello tt)
    = fst (flow.runSilent alone
             (flow.NewChainSilent (map chain_executor.Agent twoSteps))
             tt hello [] tt) /\
  calls (snd (chain_executor.Execute alone
                (fold_left
                   (fun ce step =>
                      chain_executor.AddStep ce (chain_executor.Name step)
                        (chain_executor.Instructions step)
                        (chain_executor.Agent step))
                   (twoSteps (W:=unit)) chain_executor.NewChainExecutor)
                tt hello tt))
    = calls (snd (flow.runSilent alone
                    (flow.NewChainSilent (map chain_executor.Agent twoSteps))
                    tt hello [] tt)).
Proof.
  apply (ChainExecutor_runs_agents_in_order (Opt:=unit) alone
           (twoSteps (W:=unit)) tt hello tt).
  discriminate.
Defined.

Lemma FlowExecutor_modes_agree_witness :
  fst (flow_executor.ExecuteWithVisualization alone
         (flow_executor.NewFlowExecutor (flow.NewChain [stepA : Step; stepB])
            twoSteps) tt hello tt)
    = fst (flow_executor.Execute alone
             (flow_executor.NewFlowExecutor
                (flow.NewChain [stepA : Step; stepB]) twoSteps) tt hello tt) /\
  calls (snd (flow_executor.ExecuteWithVisualization alone
                (flow_executor.NewFlowExecutor
                   (flow.NewChain [stepA : Step; stepB]) twoSteps)
                tt hello tt))
    = calls (snd (flow_executor.Execute alone
                    (flow_executor.NewFlowExecutor
                       (flow.NewChain [stepA : Step; stepB]) twoSteps)
                    tt hello tt)).
Proof.
  apply (FlowExecutor_modes_agree alone
           (flow_executor.NewFlowExecutor (flow.NewChain [stepA : Step; stepB])
              twoSteps) tt hello tt).
  - reflexivity.
  - discriminate.
Defined.

Lemma zeus_answer_fed_back_witness :
  exists r,
    zeus.convertFromZeusResponse provider (oneChoice "Once upon a time")
      = (Some r, None) /\
    zeus.messages
      (zeus.convertToZeusRequest provider
         {| Model := "llama-3.3-70b";
            RequestMessages := ResponseMessages r |})
    = [{| zeus.role := "assistant"; zeus.content := "Once upon a time" |}].
Proof.
  apply (zeus_answer_fed_back provider (oneChoice "Once upon a time")
           {| zeus.FinishReason := "stop"; zeus.Index := 0%Z;
              zeus.ChoiceMessage :=
                {| zeus.Content := "Once upon a time";
                   zeus.ChoiceRole := "assistant" |} |}
           "llama-3.3-70b").
  reflexivity.
Defined.

Lemma Generate_depends_on_roles_and_text_witness :
  zeus.Generate echo provider tt requestA [1; 2] tt
  = zeus.Generate echo provider tt requestB ([] : list nat) tt.
Proof.
  apply (Generate_depends_on_roles_and_text echo provider tt requestA requestB
           [1; 2] [] tt).
  reflexivity.
Defined.

Lemma loadConfig_last_assignment_wins_witness :
  envfile.Getenv
    (envfile.loadConfig trimASCII onlyChainEnv (fun _ => Some "before"))
    "ZEUS_API_KEY"
  = "a=b".
Proof.
  apply (loadConfig_last_assignment_wins trimASCII onlyChainEnv
           (fun _ => Some "before") ["# Zeus"; "ZEUS_API_KEY=old"]
           "ZEUS_API_KEY" "a=b").
  - reflexivity.
  - repeat split; discriminate.
Defined.

End ExtraWitnesses.
